(** * PSD Convert Free: parse dispatch and export pipeline

    A shallow embedding of [src/App.tsx] (the React component [App]) and of
    [src/workers/psdComposite.worker.ts] (the decode worker).

    - JavaScript numbers that hold pixel sizes are integers ([Z]); the scale
      factor and the JPEG quality are exact rationals ([Q]).  The scale
      slider only produces multiples of 1/4 between 1/4 and 2, for which the
      IEEE product [parsed.width * scale] is exact, so the rational model
      and the floating-point code agree on every value the UI can produce.
    - Browser objects (canvas, 2D context, worker, blobs, bitmaps) are not
      values of the program: calls on them are recorded as a trace of
      [Effect]s, and what the browser answers (a null context, a null blob,
      a decoder exception) is an explicit environment argument.
    - [ImageBitmap]s are resources: the set of bitmaps that are open (created
      and not yet [close]d) is threaded through the code as a [gset].  *)

From Stdlib Require Import ZArith QArith Qround Lqa String Ascii DecimalString DecimalPos DecimalZ.
From stdpp Require Import base gmap sets list strings.

Local Open Scope Z_scope.
#[local] Set Warnings "-clear-no-such-hyp".

(** ** The parts of the JavaScript library that the program calls *)

Module JS.

(** [Math.round]: the closest integer, ties going towards +infinity. *)
Definition Math_round (x : Q) : Z := Qfloor (x + (1 # 2))%Q.

Definition Math_max (a b : Z) : Z := Z.max a b.

(** Conversion of an integral number in a template literal. *)
Definition Number_toString (n : Z) : string :=
  NilZero.string_of_int (Z.to_int n).

(** [!==] on two numbers. *)
Definition strict_neq (a b : Q) : bool := negb (Qeq_bool a b).

Definition is_upper (c : ascii) : bool :=
  (Nat.leb 65 (nat_of_ascii c) && Nat.leb (nat_of_ascii c) 90)%bool.

Definition lower_char (c : ascii) : ascii :=
  if is_upper c then ascii_of_nat (nat_of_ascii c + 32) else c.

(** [String.prototype.toLowerCase].  File names are modelled over Rocq's
    [ascii] characters; only A-Z change.  (No character outside A-Z
    lowercases to one of [.], [p], [s], [d], which is all the suffix test
    below can observe.) *)
Fixpoint toLowerCase (s : string) : string :=
  match s with
  | EmptyString => EmptyString
  | String c r => String (lower_char c) (toLowerCase r)
  end.

(** [String.prototype.endsWith]: compare the last [length t] characters. *)
Definition endsWith (s t : string) : bool :=
  let n := String.length s in
  let k := String.length t in
  if Nat.ltb n k then false
  else String.eqb (substring (n - k) k s) t.

(** One character of a pattern under the [i] flag. *)
Definition char_eq_i (p c : ascii) : bool :=
  Ascii.eqb (lower_char p) (lower_char c).

(** Does the whole remaining input match the literal [pat], ignoring
    case?  This is the body [\.psd] followed by the anchor [$]. *)
Fixpoint match_to_end_i (pat s : string) : bool :=
  match pat, s with
  | EmptyString, EmptyString => true
  | String p pr, String c r => (char_eq_i p c && match_to_end_i pr r)%bool
  | _, _ => false
  end.

(** [s.replace(/<pat>$/i, '')] for a literal [pat]: the regular expression
    is tried at index 0, 1, 2, ...; the first index where it matches has
    its match (which runs to the end of the input) replaced by the empty
    string; without a match the string is returned as it is. *)
Fixpoint replace_suffix_i (pat s : string) : string :=
  if match_to_end_i pat s then EmptyString
  else match s with
       | EmptyString => EmptyString
       | String c r => String c (replace_suffix_i pat r)
       end.

End JS.

(** ** Data model of [App.tsx] *)

Inductive OutputFormat := png | jpg.

Definition format_string (f : OutputFormat) : string :=
  match f with png => "png" | jpg => "jpg" end.

(** An [ImageBitmap] object, named by its allocation number. *)
Definition ImageBitmap := nat.

(** A [Blob] produced by the encoder. *)
Definition Blob := nat.

Record ParsedComposite := {
  fileName : string;
  width : Z;
  height : Z;
  bitmap : ImageBitmap;
  usedWorker : bool
}.

(** The [useState] cells of the component. *)
Record AppState := {
  isDragging : bool;
  isParsing : bool;
  error : option string;
  parsed : option ParsedComposite;
  format : OutputFormat;
  jpgQuality : Q;
  jpgBackground : string;
  scale : Q
}.

Definition initial_state : AppState := {|
  isDragging := false;
  isParsing := false;
  error := None;
  parsed := None;
  format := png;
  jpgQuality := (9 # 10)%Q;
  jpgBackground := "#ffffff";
  scale := 1%Q
|}.

Definition setIsParsing (b : bool) (st : AppState) : AppState :=
  {| isDragging := isDragging st; isParsing := b; error := error st;
     parsed := parsed st; format := format st; jpgQuality := jpgQuality st;
     jpgBackground := jpgBackground st; scale := scale st |}.

Definition setError (e : option string) (st : AppState) : AppState :=
  {| isDragging := isDragging st; isParsing := isParsing st; error := e;
     parsed := parsed st; format := format st; jpgQuality := jpgQuality st;
     jpgBackground := jpgBackground st; scale := scale st |}.

Definition setParsed_value (p : option ParsedComposite) (st : AppState) : AppState :=
  {| isDragging := isDragging st; isParsing := isParsing st; error := error st;
     parsed := p; format := format st; jpgQuality := jpgQuality st;
     jpgBackground := jpgBackground st; scale := scale st |}.

Definition setFormat (f : OutputFormat) (st : AppState) : AppState :=
  {| isDragging := isDragging st; isParsing := isParsing st; error := error st;
     parsed := parsed st; format := f; jpgQuality := jpgQuality st;
     jpgBackground := jpgBackground st; scale := scale st |}.

Definition setJpgQuality (q : Q) (st : AppState) : AppState :=
  {| isDragging := isDragging st; isParsing := isParsing st; error := error st;
     parsed := parsed st; format := format st; jpgQuality := q;
     jpgBackground := jpgBackground st; scale := scale st |}.

Definition setJpgBackground (c : string) (st : AppState) : AppState :=
  {| isDragging := isDragging st; isParsing := isParsing st; error := error st;
     parsed := parsed st; format := format st; jpgQuality := jpgQuality st;
     jpgBackground := c; scale := scale st |}.

Definition setScale (s : Q) (st : AppState) : AppState :=
  {| isDragging := isDragging st; isParsing := isParsing st; error := error st;
     parsed := parsed st; format := format st; jpgQuality := jpgQuality st;
     jpgBackground := jpgBackground st; scale := s |}.

(** Options object handed to the decoder [readPsd] of ag-psd. *)
Record ReadOptions := {
  skipLayerImageData : bool;
  skipThumbnail : bool
}.

(** Calls on browser objects and on the decoder, in program order. *)
Inductive Effect :=
| CreateCanvas
| SetCanvasWidth (w : Z)
| SetCanvasHeight (h : Z)
| GetContext2d (alpha : bool)
| SetFillStyle (c : string)
| FillRect (x y w h : Z)
| ClearRect (x y w h : Z)
| SetImageSmoothingEnabled (b : bool)
| SetImageSmoothingQuality (q : string)
| DrawImage (bmp : ImageBitmap) (dx dy dw dh : Z)
| ToBlob (mime : string) (quality : option Q)
| CreateObjectURL (b : Blob)
| AnchorSetHref
| AnchorSetDownload (name : string)
| AnchorClick
| RevokeObjectURL
| ArrayBuffer (file : string)
| PostMessageToWorker (name : string) (buffer : list Byte.byte)
| ImportAgPsd
| ReadPsd (buffer : list Byte.byte) (opts : ReadOptions)
| CreateImageBitmap (bmp : ImageBitmap)
| BitmapClose (bmp : ImageBitmap).

(** ** [onDownload] *)

(** What the browser answers during one export. *)
Record ExportEnv := {
  context2d_available : bool;   (* [canvas.getContext('2d', ...)] is not null *)
  toBlob_result : option Blob   (* the argument of the [toBlob] callback *)
}.

(** Lines 140-141: [Math.max(1, Math.round(n * scale))], the product taken
    exactly.  [export_size_binary64] below rounds the product as the engine
    does; the two agree at every scale the slider can set. *)
Definition export_size (n : Z) (s : Q) : Z :=
  JS.Math_max 1 (JS.Math_round (inject_Z n * s)%Q).

Definition onDownload (env : ExportEnv) (st : AppState) : AppState * list Effect :=
  match parsed st with
  | None => (st, [])
  | Some p =>
    let exportWidth := export_size (width p) (scale st) in
    let exportHeight := export_size (height p) (scale st) in
    (* [canvas.width] and [canvas.height], as read back on lines 154 and 156 *)
    let canvas_width := exportWidth in
    let canvas_height := exportHeight in
    let t0 := [CreateCanvas; SetCanvasWidth exportWidth; SetCanvasHeight exportHeight;
               GetContext2d (match format st with png => true | jpg => false end)] in
    if negb (context2d_available env) then
      (setError (Some "Canvas 2D context is unavailable in this browser.") st, t0)
    else
      let t1 :=
        match format st with
        | jpg => [SetFillStyle (jpgBackground st); FillRect 0 0 canvas_width canvas_height]
        | png => [ClearRect 0 0 canvas_width canvas_height]
        end in
      let t2 := [SetImageSmoothingEnabled (JS.strict_neq (scale st) 1%Q);
                 SetImageSmoothingQuality "high";
                 DrawImage (bitmap p) 0 0 exportWidth exportHeight] in
      let t3 :=
        match format st with
        | png => [ToBlob "image/png" None]
        | jpg => [ToBlob "image/jpeg" (Some (jpgQuality st))]
        end in
      match toBlob_result env with
      | None =>
        (setError (Some "Export failed (toBlob returned null).") st, t0 ++ t1 ++ t2 ++ t3)
      | Some blob =>
        let base := JS.replace_suffix_i ".psd" (fileName p) in
        let name := base +:+ "-" +:+ JS.Number_toString exportWidth +:+ "x"
                         +:+ JS.Number_toString exportHeight +:+ "."
                         +:+ format_string (format st) in
        (st, t0 ++ t1 ++ t2 ++ t3 ++
             [CreateObjectURL blob; AnchorSetHref; AnchorSetDownload name;
              AnchorClick; RevokeObjectURL])
      end
  end.

(** ** The canvas surface

    What the recorded canvas calls do to the pixels of the export canvas.
    A pixel is described by what was painted on it, bottom layer last. *)

Inductive Paint :=
| Cleared (alpha : bool)      (* never painted, or erased by [clearRect] *)
| Filled (style : string)     (* covered by [fillRect] with this fill style *)
| Over (bmp : ImageBitmap) (smoothed : bool) (below : Paint).
                              (* bitmap composited source-over, resampled
                                 with or without smoothing *)

(** A cleared pixel is transparent black when the context has an alpha
    channel and opaque black otherwise; the fill styles of the program are
    the [#rrggbb] values of a colour input, which are opaque; compositing
    source-over never lowers the alpha of what is below. *)
Fixpoint opaque (p : Paint) : bool :=
  match p with
  | Cleared alpha => negb alpha
  | Filled _ => true
  | Over _ _ below => opaque below
  end.

Record Surface := {
  surface_width : Z;
  surface_height : Z;
  surface_alpha : bool;
  fillStyle : string;
  imageSmoothingEnabled : bool;
  pixel : Z -> Z -> Paint
}.

Definition in_rect (x y w h i j : Z) : bool :=
  ((x <=? i) && (i <? x + w) && (y <=? j) && (j <? y + h))%bool.

Definition new_surface : Surface :=
  {| surface_width := 300; surface_height := 150; surface_alpha := true;
     fillStyle := "#000000"; imageSmoothingEnabled := true;
     pixel := fun _ _ => Cleared true |}.

Definition paint (e : Effect) (s : Surface) : Surface :=
  match e with
  | SetCanvasWidth w =>
    {| surface_width := w; surface_height := surface_height s;
       surface_alpha := surface_alpha s; fillStyle := fillStyle s;
       imageSmoothingEnabled := imageSmoothingEnabled s;
       pixel := fun _ _ => Cleared (surface_alpha s) |}
  | SetCanvasHeight h =>
    {| surface_width := surface_width s; surface_height := h;
       surface_alpha := surface_alpha s; fillStyle := fillStyle s;
       imageSmoothingEnabled := imageSmoothingEnabled s;
       pixel := fun _ _ => Cleared (surface_alpha s) |}
  | GetContext2d alpha =>
    {| surface_width := surface_width s; surface_height := surface_height s;
       surface_alpha := alpha; fillStyle := fillStyle s;
       imageSmoothingEnabled := imageSmoothingEnabled s;
       pixel := fun _ _ => Cleared alpha |}
  | SetFillStyle c =>
    {| surface_width := surface_width s; surface_height := surface_height s;
       surface_alpha := surface_alpha s; fillStyle := c;
       imageSmoothingEnabled := imageSmoothingEnabled s; pixel := pixel s |}
  | SetImageSmoothingEnabled b =>
    {| surface_width := surface_width s; surface_height := surface_height s;
       surface_alpha := surface_alpha s; fillStyle := fillStyle s;
       imageSmoothingEnabled := b; pixel := pixel s |}
  | FillRect x y w h =>
    {| surface_width := surface_width s; surface_height := surface_height s;
       surface_alpha := surface_alpha s; fillStyle := fillStyle s;
       imageSmoothingEnabled := imageSmoothingEnabled s;
       pixel := fun i j => if in_rect x y w h i j then Filled (fillStyle s)
                           else pixel s i j |}
  | ClearRect x y w h =>
    {| surface_width := surface_width s; surface_height := surface_height s;
       surface_alpha := surface_alpha s; fillStyle := fillStyle s;
       imageSmoothingEnabled := imageSmoothingEnabled s;
       pixel := fun i j => if in_rect x y w h i j then Cleared (surface_alpha s)
                           else pixel s i j |}
  | DrawImage bmp dx dy dw dh =>
    {| surface_width := surface_width s; surface_height := surface_height s;
       surface_alpha := surface_alpha s; fillStyle := fillStyle s;
       imageSmoothingEnabled := imageSmoothingEnabled s;
       pixel := fun i j => if in_rect dx dy dw dh i j then Over bmp (imageSmoothingEnabled s) (pixel s i j)
                           else pixel s i j |}
  | _ => s
  end.

(** The surface after a trace, calls applied in program order. *)
Definition render (tr : list Effect) : Surface :=
  fold_left (fun s e => paint e s) tr new_surface.

(** The part of a trace that precedes the first [drawImage]. *)
Fixpoint before_draw (tr : list Effect) : list Effect :=
  match tr with
  | [] => []
  | DrawImage _ _ _ _ _ :: _ => []
  | e :: r => e :: before_draw r
  end.

Definition is_fill (e : Effect) : bool :=
  match e with
  | FillRect _ _ _ _ | SetFillStyle _ => true
  | _ => false
  end.

Definition is_download (e : Effect) : bool :=
  match e with
  | CreateObjectURL _ | AnchorSetHref | AnchorSetDownload _ | AnchorClick => true
  | _ => false
  end.

(** ** Bitmap resources *)

Record Bitmaps := {
  next_bitmap : nat;              (* number of bitmaps created so far *)
  open_bitmaps : gset nat         (* created and not closed *)
}.

Definition no_bitmaps : Bitmaps := {| next_bitmap := 0; open_bitmaps := ∅ |}.

(** A new [ImageBitmap] ([createImageBitmap], [transferToImageBitmap]). *)
Definition new_bitmap (h : Bitmaps) : ImageBitmap * Bitmaps :=
  (next_bitmap h,
   {| next_bitmap := S (next_bitmap h);
      open_bitmaps := {[ next_bitmap h ]} ∪ open_bitmaps h |}).

(** [bitmap.close()]. *)
Definition close (b : ImageBitmap) (h : Bitmaps) : Bitmaps :=
  {| next_bitmap := next_bitmap h; open_bitmaps := open_bitmaps h ∖ {[ b ]} |}.

(** ** The decoder and thrown values *)

Inductive Thrown :=
| ErrorObject (message : string)   (* [e instanceof Error] *)
| OtherValue.

(** [e instanceof Error ? e.message : 'Failed to parse PSD.'] *)
Definition catch_message (e : Thrown) : string :=
  match e with
  | ErrorObject m => m
  | OtherValue => "Failed to parse PSD."
  end.

(** The [canvas] property of a decoded PSD. *)
Record CanvasObject := {
  has_transferToImageBitmap : bool
}.

Record Psd := {
  psd_width : Z;
  psd_height : Z;
  psd_canvas : option CanvasObject
}.

(** ag-psd's [readPsd(buffer, options)]: returns or throws. *)
Definition Decoder := list Byte.byte -> ReadOptions -> Thrown + Psd.

Record File := {
  file_name : string;
  file_bytes : list Byte.byte
}.

(** ** [psdComposite.worker.ts] *)

Inductive WorkerResponse :=
| MsgParsed (fileName : string) (width height : Z) (bitmap : ImageBitmap)
| MsgError (message : string).

(** [event.data] as the worker receives it. *)
Inductive WorkerData :=
| ParseRequest (fileName : string) (buffer : list Byte.byte)
| OtherData.

Module Worker.

Record Env := {
  OffscreenCanvas_defined : bool;
  readPsd : Decoder
}.

(** [self.onmessage]: the messages posted back, the bitmap store, and the
    decoder calls made. *)
Definition onmessage (env : Env) (data : WorkerData) (h : Bitmaps)
  : list WorkerResponse * Bitmaps * list Effect :=
  match data with
  | OtherData => ([], h, [])
  | ParseRequest name buffer =>
    if negb (OffscreenCanvas_defined env) then
      ([MsgError "OffscreenCanvas is not supported in this browser."], h, [])
    else
      let opts := {| skipLayerImageData := true; skipThumbnail := true |} in
      let call := [ReadPsd buffer opts] in
      match readPsd env buffer opts with
      | inl e => ([MsgError (catch_message e)], h, call)
      | inr psd =>
        match psd_canvas psd with
        | None =>
          ([MsgError "No composite image found in this PSD (or unsupported PSD features)."],
           h, call)
        | Some canvas =>
          if negb (has_transferToImageBitmap canvas) then
            ([MsgError "No composite image found in this PSD (or unsupported PSD features)."],
             h, call)
          else
            let '(bmp, h') := new_bitmap h in
            ([MsgParsed name (psd_width psd) (psd_height psd) bmp], h', call)
        end
      end
  end.

End Worker.

(** ** The asynchronous functions of [App.tsx]

    An [async] function runs against the component state, the bitmap store
    and the queue of messages posted to the worker; it returns or throws. *)

Record World := {
  state : AppState;
  bitmaps : Bitmaps;
  trace : list Effect;
  to_worker : list WorkerData     (* posted with [worker.postMessage] *)
}.

Definition Async (A : Type) : Type := World -> (Thrown + A) * World.

Definition ret {A} (a : A) : Async A := fun w => (inr a, w).

Definition throw {A} (e : Thrown) : Async A := fun w => (inl e, w).

Definition bind {A B} (c : Async A) (k : A -> Async B) : Async B :=
  fun w =>
    match c w with
    | (inl e, w') => (inl e, w')
    | (inr a, w') => k a w'
    end.

Definition try_catch {A} (body : Async A) (handler : Thrown -> Async A) : Async A :=
  fun w =>
    match body w with
    | (inl e, w') => handler e w'
    | (inr a, w') => (inr a, w')
    end.

#[global] Instance Async_ret : MRet Async := @ret.
#[global] Instance Async_bind : MBind Async := fun A B k c => bind c k.

(** A [useState] setter. *)
Definition update (f : AppState -> AppState) : Async unit :=
  fun w => (inr tt, {| state := f (state w); bitmaps := bitmaps w;
                       trace := trace w; to_worker := to_worker w |}).

Definition emit (e : Effect) : Async unit :=
  fun w => (inr tt, {| state := state w; bitmaps := bitmaps w;
                       trace := trace w ++ [e]; to_worker := to_worker w |}).

Module App.

(** What the browser and the decoder answer during one [handleFile]. *)
Record Env := {
  arrayBuffer_error : option Thrown;       (* [file.arrayBuffer()] rejects *)
  import_error : option Thrown;            (* [import('ag-psd')] rejects *)
  readPsd : Decoder;
  createImageBitmap_error : option Thrown  (* [createImageBitmap] rejects *)
}.

Definition import_ag_psd (env : Env) : Async unit :=
  emit ImportAgPsd;;
  match import_error env with
  | Some e => throw e
  | None => ret tt
  end.

Definition arrayBuffer (env : Env) (file : File) : Async (list Byte.byte) :=
  emit (ArrayBuffer (file_name file));;
  match arrayBuffer_error env with
  | Some e => throw e
  | None => ret (file_bytes file)
  end.

Definition call_readPsd (env : Env) (buffer : list Byte.byte) (opts : ReadOptions)
  : Async Psd :=
  emit (ReadPsd buffer opts);;
  match readPsd env buffer opts with
  | inl e => throw e
  | inr psd => ret psd
  end.

Definition createImageBitmap (env : Env) : Async ImageBitmap :=
  match createImageBitmap_error env with
  | Some e => throw e
  | None =>
    fun w =>
      let '(b, h) := new_bitmap (bitmaps w) in
      (inr b, {| state := state w; bitmaps := h;
                 trace := trace w ++ [CreateImageBitmap b];
                 to_worker := to_worker w |})
  end.

(** [setParsed((prev) => { prev?.bitmap.close(); return next })] *)
Definition setParsed (next : ParsedComposite) : Async unit :=
  fun w =>
    match parsed (state w) with
    | Some prev =>
      (inr tt, {| state := setParsed_value (Some next) (state w);
                  bitmaps := close (bitmap prev) (bitmaps w);
                  trace := trace w ++ [BitmapClose (bitmap prev)];
                  to_worker := to_worker w |})
    | None =>
      (inr tt, {| state := setParsed_value (Some next) (state w);
                  bitmaps := bitmaps w;
                  trace := trace w;
                  to_worker := to_worker w |})
    end.

Definition postMessage (name : string) (buffer : list Byte.byte) : Async unit :=
  fun w => (inr tt, {| state := state w; bitmaps := bitmaps w;
                       trace := trace w ++ [PostMessageToWorker name buffer];
                       to_worker := to_worker w ++ [ParseRequest name buffer] |}).

Definition parseInMainThread (env : Env) (file : File) : Async unit :=
  import_ag_psd env;;
  buffer ← arrayBuffer env file;
  psd ← call_readPsd env buffer
           {| skipLayerImageData := true; skipThumbnail := true |};
  match psd_canvas psd with
  | None => throw (ErrorObject "No composite image found in this PSD.")
  | Some _ =>
    bitmap ← createImageBitmap env;
    setParsed {| fileName := file_name file; width := psd_width psd;
                 height := psd_height psd; bitmap := bitmap;
                 usedWorker := false |}
  end.

(** The test of line 115. *)
Definition has_extension (name : string) : bool :=
  JS.endsWith (JS.toLowerCase name) ".psd".

(** [workerRef] tells whether [workerRef.current] is a worker. *)
Definition handleFile (env : Env) (workerRef : bool) (file : File) : Async unit :=
  update (setError None);;
  update (setIsParsing true);;
  try_catch
    (if negb (has_extension (file_name file)) then
       throw (ErrorObject "Please select a .psd file.")
     else if workerRef then
       buffer ← arrayBuffer env file;
       postMessage (file_name file) buffer
     else
       parseInMainThread env file;;
       update (setIsParsing false))
    (fun e =>
       update (setIsParsing false);;
       update (setError (Some (catch_message e)))).

(** [worker.onmessage] *)
Definition worker_onmessage (msg : WorkerResponse) : Async unit :=
  match msg with
  | MsgError message =>
    update (setIsParsing false);;
    update (setError (Some (if String.eqb message "" then "Failed to parse PSD."
                            else message)))
  | MsgParsed name w h bmp =>
    update (setIsParsing false);;
    update (setError None);;
    setParsed {| fileName := name; width := w; height := h; bitmap := bmp;
                 usedWorker := true |}
  end.

(** [worker.onerror] *)
Definition worker_onerror : Async unit :=
  update (setIsParsing false);;
  update (setError (Some "Worker failed. Try a different browser or disable extensions.")).

End App.

(** ** The page: component, worker and the messages between them

    One event is one complete run of a handler: [handleFile] is followed to
    its end, so the states between two of its [await]s, and loads that
    overlap on the main thread, are not states of this model.  The properties
    stated over [run] are those that do not depend on this. *)

Record System := {
  world : World;
  workerRef : bool;                    (* [canUseWorker]: a worker was created *)
  to_main : list WorkerResponse        (* posted by the worker, not yet delivered *)
}.

Inductive Event :=
| FileChosen (file : File) (env : App.Env)   (* file input or drop: [handleFile] *)
| WorkerRuns (env : Worker.Env)              (* the worker handles its oldest message *)
| MessageDelivered                           (* [worker.onmessage] with the oldest reply *)
| WorkerFails                                (* [worker.onerror] *)
| DownloadClicked (env : ExportEnv)          (* [onDownload] *)
| FormatChosen (f : OutputFormat)
| ScaleChosen (s : Q)
| QualityChosen (q : Q)
| BackgroundChosen (c : string).

Definition initial (canUseWorker : bool) : System :=
  {| world := {| state := initial_state; bitmaps := no_bitmaps; trace := [];
                 to_worker := [] |};
     workerRef := canUseWorker;
     to_main := [] |}.

Definition with_world (s : System) (w : World) : System :=
  {| world := w; workerRef := workerRef s; to_main := to_main s |}.

Definition step (s : System) (ev : Event) : System :=
  match ev with
  | FileChosen file env =>
    with_world s (snd (App.handleFile env (workerRef s) file (world s)))
  | WorkerRuns env =>
    match to_worker (world s) with
    | [] => s
    | data :: rest =>
      let '(posted, h, calls) := Worker.onmessage env data (bitmaps (world s)) in
      {| world := {| state := state (world s); bitmaps := h;
                     trace := trace (world s) ++ calls; to_worker := rest |};
         workerRef := workerRef s;
         to_main := to_main s ++ posted |}
    end
  | MessageDelivered =>
    match to_main s with
    | [] => s
    | msg :: rest =>
      {| world := snd (App.worker_onmessage msg (world s));
         workerRef := workerRef s;
         to_main := rest |}
    end
  | WorkerFails =>
    with_world s (snd (App.worker_onerror (world s)))
  | DownloadClicked env =>
    let '(st, tr) := onDownload env (state (world s)) in
    with_world s {| state := st; bitmaps := bitmaps (world s);
                    trace := trace (world s) ++ tr;
                    to_worker := to_worker (world s) |}
  | FormatChosen f => with_world s (snd (update (setFormat f) (world s)))
  | ScaleChosen q => with_world s (snd (update (setScale q) (world s)))
  | QualityChosen q => with_world s (snd (update (setJpgQuality q) (world s)))
  | BackgroundChosen c => with_world s (snd (update (setJpgBackground c) (world s)))
  end.

Definition run (canUseWorker : bool) (evs : list Event) : System :=
  fold_left step evs (initial canUseWorker).

(** ** Notions used to state the properties *)

(** [r] is the integer closest to [x], the upper one on a tie. *)
Definition rounds_to (x : Q) (r : Z) : Prop :=
  (inject_Z r - (1 # 2) <= x)%Q /\ (x < inject_Z r + (1 # 2))%Q.

(** The four characters [.psd], each letter in either case. *)
Definition psd_suffix (e : string) : Prop :=
  exists c1 c2 c3 : ascii,
    e = String "."%char (String c1 (String c2 (String c3 EmptyString))) /\
    (c1 = "p"%char \/ c1 = "P"%char) /\
    (c2 = "s"%char \/ c2 = "S"%char) /\
    (c3 = "d"%char \/ c3 = "D"%char).

Definition ends_in_psd (name : string) : Prop :=
  exists base e, name = base +:+ e /\ psd_suffix e.

(** [base] is [name] without a trailing [.psd] extension. *)
Definition strips_psd (name base : string) : Prop :=
  (exists e, name = base +:+ e /\ psd_suffix e) \/
  (~ ends_in_psd name /\ base = name).

(** The decimal numeral [s] denotes the integer [n]. *)
Definition reads_as (s : string) (n : Z) : Prop :=
  option_map Z.of_int (NilZero.int_of_string s) = Some n.

(** Projections of a trace. *)
Definition download_names (tr : list Effect) : list string :=
  omap (fun e => match e with AnchorSetDownload n => Some n | _ => None end) tr.

Definition toBlob_calls (tr : list Effect) : list (string * option Q) :=
  omap (fun e => match e with ToBlob m q => Some (m, q) | _ => None end) tr.

Definition decoder_calls (tr : list Effect) : list (list Byte.byte * ReadOptions) :=
  omap (fun e => match e with ReadPsd b o => Some (b, o) | _ => None end) tr.

Definition smoothing_settings (tr : list Effect) : list bool :=
  omap (fun e => match e with SetImageSmoothingEnabled b => Some b | _ => None end) tr.

Definition closed_bitmaps (tr : list Effect) : list ImageBitmap :=
  omap (fun e => match e with BitmapClose b => Some b | _ => None end) tr.

Definition on_canvas (s : Surface) (i j : Z) : Prop :=
  0 <= i < surface_width s /\ 0 <= j < surface_height s.

(** The bitmap the component holds, and the bitmaps travelling to it. *)
Definition held (st : AppState) : gset nat :=
  match parsed st with
  | Some p => {[ bitmap p ]}
  | None => ∅
  end.

(** The bitmaps carried by messages that the worker has posted. *)
Definition message_bitmaps (msgs : list WorkerResponse) : list ImageBitmap :=
  omap (fun m => match m with
                 | MsgParsed _ _ _ b => Some b
                 | MsgError _ => None
                 end) msgs.

Definition in_flight (msgs : list WorkerResponse) : gset nat :=
  list_to_set (message_bitmaps msgs).

(** Every reference to a bitmap that the page has: the displayed composite
    first, then the messages on their way to the component. *)
Definition held_list (prev : option ParsedComposite) : list ImageBitmap :=
  match prev with
  | Some p => [bitmap p]
  | None => []
  end.

Definition holders (s : System) : list ImageBitmap :=
  held_list (parsed (state (world s))) ++ message_bitmaps (to_main s).

(** The open bitmaps are exactly the referenced ones, each referenced once,
    all of them created earlier. *)
Definition accounted (s : System) : Prop :=
  NoDup (holders s) /\
  (forall b, b ∈ holders s -> (b < next_bitmap (bitmaps (world s)))%nat) /\
  open_bitmaps (bitmaps (world s)) = list_to_set (holders s).

(** The bitmap store after replacing the composite by a new bitmap. *)
Definition superseded (prev : option ParsedComposite) (h : Bitmaps) : Bitmaps :=
  match prev with
  | Some p => close (bitmap p) h
  | None => h
  end.

(** Sample values. *)
Definition sample_composite : ParsedComposite :=
  {| fileName := "Photo.PSD"; width := 100; height := 100; bitmap := 0%nat;
     usedWorker := true |}.

Definition sample_state : AppState :=
  setScale (1 # 2)%Q (setParsed_value (Some sample_composite) initial_state).

Definition sample_jpg_state : AppState := setFormat jpg sample_state.

Definition ok_env : ExportEnv :=
  {| context2d_available := true; toBlob_result := Some 7%nat |}.

Definition no_context_env : ExportEnv :=
  {| context2d_available := false; toBlob_result := Some 7%nat |}.

Definition sample_psd : Psd :=
  {| psd_width := 100; psd_height := 100;
     psd_canvas := Some {| has_transferToImageBitmap := true |} |}.

Definition flat_psd : Psd :=
  {| psd_width := 100; psd_height := 100; psd_canvas := None |}.

Definition sample_file : File :=
  {| file_name := "Photo.PSD";
     file_bytes := [Byte.x38; Byte.x42; Byte.x50; Byte.x53] |}.

Definition text_file : File :=
  {| file_name := "notes.txt"; file_bytes := [Byte.x68; Byte.x69] |}.

Definition sample_app_env (psd : Psd) : App.Env :=
  {| App.arrayBuffer_error := None; App.import_error := None;
     App.readPsd := fun _ _ => inr psd; App.createImageBitmap_error := None |}.

Definition sample_worker_env (psd : Psd) : Worker.Env :=
  {| Worker.OffscreenCanvas_defined := true; Worker.readPsd := fun _ _ => inr psd |}.

(** ** The preview effect of [App.tsx] (lines 78-95)

    The effect runs after every change of [parsed].  [canvas] is the element
    behind [previewCanvasRef] when one is mounted; the calls it receives
    are recorded as for the export canvas. *)

Record PreviewEnv := {
  preview_context2d : bool;              (* [canvas.getContext('2d')] is not null *)
  bitmap_size : ImageBitmap -> Z * Z     (* natural width and height of a bitmap *)
}.

Definition preview_effect (env : PreviewEnv) (canvas : option Surface) (st : AppState)
  : list Effect :=
  match canvas with
  | None => []
  | Some cv =>
    match parsed st with
    | None =>
      GetContext2d true ::
      (if preview_context2d env
       then [ClearRect 0 0 (surface_width cv) (surface_height cv)]
       else [])
    | Some p =>
      [SetCanvasWidth (width p); SetCanvasHeight (height p); GetContext2d true] ++
      (if preview_context2d env
       then [ClearRect 0 0 (width p) (height p);
             (* [drawImage(bitmap, 0, 0)]: at the natural size of the bitmap *)
             DrawImage (bitmap p) 0 0 (fst (bitmap_size env (bitmap p)))
                       (snd (bitmap_size env (bitmap p)))]
       else [])
    end
  end.

(** The canvas after a list of calls. *)
Definition apply_calls (tr : list Effect) (s : Surface) : Surface :=
  fold_left (fun s e => paint e s) tr s.

Definition drawn_bitmaps (tr : list Effect) : list ImageBitmap :=
  omap (fun e => match e with DrawImage b _ _ _ _ => Some b | _ => None end) tr.

(** ** [scripts/smoke-e2e.mjs]: the output buffer of the dev server *)

Module Smoke.

(** [String.prototype.includes]: [t] occurs in [s] at some index. *)
Fixpoint includes (s t : string) : bool :=
  if String.prefix t s then true
  else match s with
       | EmptyString => false
       | String _ r => includes r t
       end.

(** The variables [ready] and [out] of [startDevServer]. *)
Record DevServer := {
  ready : bool;
  out : list string
}.

Definition started : DevServer := {| ready := false; out := [] |}.

(** [onData(chunk)], with [s = chunk.toString('utf8')]. *)
Definition onData (s : string) (d : DevServer) : DevServer :=
  let pushed := out d ++ [s] in
  let out' := if Nat.ltb 200 (length pushed) then tail pushed else pushed in
  {| ready := if (includes s "ready in" || includes s "Local:")%bool then true
              else ready d;
     out := out' |}.

(** [getOutput()]: [out.join('')]. *)
Definition getOutput (d : DevServer) : string :=
  fold_right String.append EmptyString (out d).

(** The dev server after the chunks of its stdout and stderr, oldest first. *)
Definition after_chunks (chunks : list string) : DevServer :=
  fold_left (fun d s => onData s d) chunks started.

(** The test of line 119 on the suggested file name of the download. *)
Definition filename_ok (suggested : string) : bool :=
  JS.endsWith (JS.toLowerCase suggested) ".png".

End Smoke.

(** ** Further notions *)

(** [t] occurs in [s]. *)
Definition occurs_in (t s : string) : Prop :=
  exists a b, s = a +:+ t +:+ b.

(** The file names the page currently works with: of the displayed
    composite, of the requests posted to the worker and of its replies. *)
Definition request_name (d : WorkerData) : option string :=
  match d with
  | ParseRequest n _ => Some n
  | OtherData => None
  end.

Definition response_name (m : WorkerResponse) : option string :=
  match m with
  | MsgParsed n _ _ _ => Some n
  | MsgError _ => None
  end.

Definition is_parse_request (d : WorkerData) : bool :=
  match d with
  | ParseRequest _ _ => true
  | OtherData => false
  end.

(** The page with a given world, worker flag and replies. *)
Definition page (w : World) (workerRef : bool) (replies : list WorkerResponse) : System :=
  {| world := w; workerRef := workerRef; to_main := replies |}.

(** Every file name the page works with passed the test of [handleFile],
    and the worker's queue holds parse requests only. *)
Definition names_valid (s : System) : Prop :=
  (forall p, parsed (state (world s)) = Some p -> App.has_extension (fileName p) = true) /\
  Forall (fun d => exists n, request_name d = Some n /\ App.has_extension n = true)
         (to_worker (world s)) /\
  Forall (fun m => forall n, response_name m = Some n -> App.has_extension n = true)
         (to_main s).

(** The page decodes where [canUseWorker] says; without a worker nothing is
    ever queued or pending. *)
Definition provenance (canUseWorker : bool) (s : System) : Prop :=
  workerRef s = canUseWorker /\
  (forall p, parsed (state (world s)) = Some p -> usedWorker p = canUseWorker) /\
  (canUseWorker = false ->
   to_worker (world s) = [] /\ to_main s = [] /\ isParsing (state (world s)) = false).

(** Every bitmap created so far is either closed or referenced, and none is
    both or counted twice. *)
Definition ledger (s : System) : Prop :=
  NoDup (closed_bitmaps (trace (world s)) ++ holders s) /\
  forall b, (b < next_bitmap (bitmaps (world s)))%nat <->
            b ∈ closed_bitmaps (trace (world s)) ++ holders s.

(** ** Binary64 arithmetic

    A JavaScript number is an IEEE 754 binary64 value and [a * b] is the
    exact product rounded to the nearest such value, ties to the even
    significand.  Every finite binary64 value is a multiple of 2^-1074;
    below, [X] is the argument in that unit and [E] the exponent of the unit
    in the last place at [X] (0 for the subnormal values).  The overflow to
    Infinity (arguments of magnitude 2^1024 and above) is not modelled. *)

Module Binary64.

(** The closest integer, ties to the even one. *)
Definition round_half_even (x : Q) : Z :=
  let f := Qfloor x in
  match (x - inject_Z f ?= 1 # 2)%Q with
  | Lt => f
  | Gt => f + 1
  | Eq => if Z.even f then f else f + 1
  end.

Definition nearest_nonneg (x : Q) : Q :=
  let X := (x * inject_Z (2 ^ 1074))%Q in
  let E := Z.max 0 (Z.log2 (Qfloor X) - 52) in
  (inject_Z (round_half_even (X / inject_Z (2 ^ E)) * 2 ^ E) / inject_Z (2 ^ 1074))%Q.

(** The binary64 value nearest to [x]. *)
Definition nearest (x : Q) : Q :=
  if Qle_bool 0 x then nearest_nonneg x else (- nearest_nonneg (- x))%Q.

(** [a * b] on two numbers. *)
Definition mul (a b : Q) : Q := nearest (a * b).

End Binary64.

(** Lines 140-141 as the engine evaluates them: the product
    [parsed.width * scale] is a binary64 multiplication.  ([export_size]
    above takes the product exactly; the two agree at every scale the slider
    can set, see [export_size_binary64_quarters].) *)
Definition export_size_binary64 (n : Z) (s : Q) : Z :=
  JS.Math_max 1 (JS.Math_round (Binary64.mul (inject_Z n) s)).

(** The number that the literal [0.7] denotes. *)
Definition double_0_7 : Q := Binary64.nearest (7 # 10).

(** [s] is the decimal numeral of the positive integer [n]: its digits
    denote [n] and the first one is not a zero. *)
Definition canonical_numeral (s : string) (n : Z) : Prop :=
  reads_as s n /\
  match s with
  | String c _ => c <> "0"%char
  | EmptyString => False
  end.

(** ** Proof automation *)

(** Run [onDownload] on a state that holds a composite: one goal per
    output format and per answer of the encoder. *)
Ltac run_export Hp :=
  unfold onDownload; rewrite Hp;
  repeat match goal with
         | H : context2d_available _ = _ |- _ => rewrite H
         | H : toBlob_result _ = _ |- _ => rewrite H
         | H : format _ = _ |- _ => rewrite H
         end;
  cbn [negb fst snd app].

(** A statement about one character, checked on all 256 of them. *)
Ltac ascii_cases c :=
  destruct c as [[] [] [] [] [] [] [] []]; vm_compute;
  first [ split; [ intros H; discriminate H
                 | first [ intros [H | H]; discriminate H | intros H; discriminate H ] ]
        | split; [ intros _; first [ reflexivity | left; reflexivity | right; reflexivity ]
                 | intros _; reflexivity ] ].

(** Unfold the asynchronous functions down to the world they return. *)
Ltac run_async :=
  unfold App.worker_onmessage, App.worker_onerror,
    App.handleFile, App.parseInMainThread, App.import_ag_psd, App.arrayBuffer,
    App.call_readPsd, App.createImageBitmap, App.setParsed, App.postMessage,
    mbind, mret, Async_bind, Async_ret, bind, ret, throw, try_catch, update, emit;
  cbn [fst snd state bitmaps trace to_worker negb].

(** * Properties *)

(** ** Numbers and strings *)

Lemma Math_round_rounds (x : Q) : rounds_to x (JS.Math_round x).
Proof.
  unfold rounds_to, JS.Math_round.
  pose proof (Qfloor_le (x + (1 # 2))) as Hle.
  pose proof (Qlt_floor (x + (1 # 2))) as Hlt.
  rewrite inject_Z_plus in Hlt. change (inject_Z 1) with 1%Q in Hlt.
  set (f := inject_Z (Qfloor (x + (1 # 2)))) in *.
  split; lra.
Qed.

Lemma rounds_to_unique (x : Q) (r r' : Z) :
  rounds_to x r -> rounds_to x r' -> r = r'.
Proof.
  unfold rounds_to. intros [H1 H2] [H3 H4].
  assert (Hlt1 : (inject_Z r < inject_Z r' + 1)%Q) by lra.
  assert (Hlt2 : (inject_Z r' < inject_Z r + 1)%Q) by lra.
  change 1%Q with (inject_Z 1) in Hlt1, Hlt2.
  rewrite <- inject_Z_plus in Hlt1, Hlt2.
  rewrite <- Zlt_Qlt in Hlt1, Hlt2. lia.
Qed.


(** ** [onDownload] *)

Lemma in_rect_origin (w h i j : Z) :
  0 <= i < w -> 0 <= j < h -> in_rect 0 0 w h i j = true.
Proof.
  intros Hi Hj. unfold in_rect.
  repeat (apply andb_true_intro; split); first [apply Z.leb_le | apply Z.ltb_lt]; lia.
Qed.



Lemma strict_neq_true (a b : Q) : JS.strict_neq a b = true <-> ~ (a == b)%Q.
Proof.
  unfold JS.strict_neq. rewrite negb_true_iff.
  destruct (Qeq_bool a b) eqn:E.
  - apply Qeq_bool_iff in E. split; [discriminate | contradiction].
  - split; [| reflexivity]. intros _ H. apply Qeq_bool_iff in H. congruence.
Qed.

(** C10: without a Decoded Composite ([parsed] is null) the export is a
    no-op: the state is returned as it is and no call is made on any browser
    object (no canvas, no download, no error message). *)
Theorem onDownload_without_composite (env : ExportEnv) (st : AppState) :
  parsed st = None -> onDownload env st = (st, []).
Proof. intros Hp. unfold onDownload. rewrite Hp. reflexivity. Qed.

Lemma onDownload_without_composite_witness :
  onDownload no_context_env initial_state = (initial_state, []).
Proof. apply onDownload_without_composite. reflexivity. Defined.

(** ** Binary64 products at the scales of the slider *)









Example binary64_product_sample :
  export_size_binary64 5 double_0_7 = 4 /\ export_size 5 double_0_7 = 3 /\
  export_size_binary64 100 (1 # 2) = 50 /\ export_size_binary64 100 1 = 100.
Proof. vm_compute. repeat split; reflexivity. Qed.

(** C9: image smoothing is set once per export, to "scale is not 1", and the
    bitmap is drawn over the whole canvas under that setting: smoothing is
    enabled if and only if the scale factor differs from 1. *)
Theorem smoothing_iff_scaled (env : ExportEnv) (st : AppState) (p : ParsedComposite) :
  parsed st = Some p -> context2d_available env = true ->
  exists b : bool,
    smoothing_settings (snd (onDownload env st)) = [b] /\
    (b = true <-> ~ (scale st == 1)%Q) /\
    (b = false <-> (scale st == 1)%Q) /\
    forall i j, on_canvas (render (snd (onDownload env st))) i j ->
      exists below, pixel (render (snd (onDownload env st))) i j = Over (bitmap p) b below.
Proof.
  intros Hp Hc. exists (JS.strict_neq (scale st) 1%Q).
  split; [| split; [| split]].
  - run_export Hp. destruct (format st), (toBlob_result env); reflexivity.
  - apply strict_neq_true.
  - pose proof (strict_neq_true (scale st) 1%Q) as Hn.
    destruct (JS.strict_neq (scale st) 1%Q).
    + split; [discriminate |]. intros Hs. exfalso. apply Hn; [reflexivity | exact Hs].
    + split; [| reflexivity]. intros _.
      destruct (Qeq_dec (scale st) 1) as [Hs | Hs]; [exact Hs |].
      apply Hn in Hs. discriminate.
  - run_export Hp. intros i j.
    destruct (format st), (toBlob_result env); cbn; intros [Hi Hj];
      rewrite in_rect_origin by assumption; eexists; reflexivity.
Qed.

Lemma smoothing_iff_scaled_witness :
  exists b : bool,
    smoothing_settings (snd (onDownload ok_env sample_state)) = [b] /\
    (b = true <-> ~ (1 # 2 == 1)%Q) /\
    (b = false <-> (1 # 2 == 1)%Q) /\
    forall i j, on_canvas (render (snd (onDownload ok_env sample_state))) i j ->
      exists below,
        pixel (render (snd (onDownload ok_env sample_state))) i j = Over 0%nat b below.
Proof.
  apply (smoothing_iff_scaled ok_env sample_state sample_composite); reflexivity.
Defined.

(** C2: when the format is JPEG the whole canvas is filled with the
    configured background colour before the bitmap is drawn, so every pixel
    of the result is opaque; when the format is PNG no fill is made and the
    canvas is transparent before the bitmap is drawn. *)
Theorem background_before_draw (env : ExportEnv) (st : AppState) (p : ParsedComposite) :
  parsed st = Some p -> context2d_available env = true ->
  forall i j, on_canvas (render (snd (onDownload env st))) i j ->
    match format st with
    | jpg =>
      pixel (render (before_draw (snd (onDownload env st)))) i j
        = Filled (jpgBackground st) /\
      (exists sm, pixel (render (snd (onDownload env st))) i j
                  = Over (bitmap p) sm (Filled (jpgBackground st))) /\
      opaque (pixel (render (snd (onDownload env st))) i j) = true
    | png =>
      filter is_fill (snd (onDownload env st)) = [] /\
      pixel (render (before_draw (snd (onDownload env st)))) i j = Cleared true /\
      opaque (pixel (render (before_draw (snd (onDownload env st)))) i j) = false /\
      (exists sm, pixel (render (snd (onDownload env st))) i j
                  = Over (bitmap p) sm (Cleared true))
    end.
Proof.
  intros Hp Hc i j. run_export Hp.
  destruct (format st), (toBlob_result env); cbn; intros [Hi Hj];
    rewrite !in_rect_origin by assumption; cbn;
    repeat split; try reflexivity; eexists; reflexivity.
Qed.

Lemma background_before_draw_witness :
  pixel (render (before_draw (snd (onDownload ok_env sample_jpg_state)))) 49 0
    = Filled "#ffffff" /\
  (exists sm, pixel (render (snd (onDownload ok_env sample_jpg_state))) 49 0
              = Over 0%nat sm (Filled "#ffffff")) /\
  opaque (pixel (render (snd (onDownload ok_env sample_jpg_state))) 49 0) = true.
Proof.
  apply (background_before_draw ok_env sample_jpg_state sample_composite eq_refl eq_refl 49 0).
  unfold on_canvas. cbn. change (export_size 100 (1 # 2)) with 50. lia.
Defined.

(** C6: when the 2D context cannot be obtained, or the encoder yields no
    blob, the export sets an error message and makes no download; the
    Decoded Composite and every other state cell stay as they were, and no
    bitmap is closed. *)
Theorem export_failure_reports (env : ExportEnv) (st : AppState) (p : ParsedComposite) :
  parsed st = Some p ->
  context2d_available env = false \/ toBlob_result env = None ->
  exists msg : string,
    fst (onDownload env st) = setError (Some msg) st /\
    error (fst (onDownload env st)) = Some msg /\
    parsed (fst (onDownload env st)) = Some p /\
    filter is_download (snd (onDownload env st)) = [] /\
    closed_bitmaps (snd (onDownload env st)) = [].
Proof.
  intros Hp Hfail. unfold onDownload. rewrite Hp.
  destruct (context2d_available env) eqn:Hc; cbn [negb].
  - destruct Hfail as [Hfail | Hfail]; [discriminate |]. rewrite Hfail.
    exists "Export failed (toBlob returned null).".
    destruct (format st); repeat split; assumption || reflexivity.
  - exists "Canvas 2D context is unavailable in this browser.".
    repeat split; assumption || reflexivity.
Qed.

Lemma export_failure_reports_witness :
  exists msg : string,
    fst (onDownload no_context_env sample_state) = setError (Some msg) sample_state /\
    error (fst (onDownload no_context_env sample_state)) = Some msg /\
    parsed (fst (onDownload no_context_env sample_state)) = Some sample_composite /\
    filter is_download (snd (onDownload no_context_env sample_state)) = [] /\
    closed_bitmaps (snd (onDownload no_context_env sample_state)) = [].
Proof.
  apply (export_failure_reports no_context_env sample_state sample_composite eq_refl).
  left. reflexivity.
Defined.

(** ** File names *)

Lemma lower_char_dot (c : ascii) : JS.lower_char c = "."%char <-> c = "."%char.
Proof. ascii_cases c. Qed.

Lemma lower_char_p (c : ascii) :
  JS.lower_char c = "p"%char <-> c = "p"%char \/ c = "P"%char.
Proof. ascii_cases c. Qed.

Lemma lower_char_s (c : ascii) :
  JS.lower_char c = "s"%char <-> c = "s"%char \/ c = "S"%char.
Proof. ascii_cases c. Qed.

Lemma lower_char_d (c : ascii) :
  JS.lower_char c = "d"%char <-> c = "d"%char \/ c = "D"%char.
Proof. ascii_cases c. Qed.

Lemma toLowerCase_psd (e : string) : JS.toLowerCase e = ".psd" <-> psd_suffix e.
Proof.
  split.
  - destruct e as [| c0 [| c1 [| c2 [| c3 [| c4 r]]]]]; cbn [JS.toLowerCase];
      intros H; try discriminate H.
    injection H as H0 H1 H2 H3.
    apply (proj1 (lower_char_dot c0)) in H0. subst c0.
    exists c1, c2, c3. split; [reflexivity |].
    rewrite <- lower_char_p, <- lower_char_s, <- lower_char_d. auto.
  - intros (c1 & c2 & c3 & -> & H1 & H2 & H3). cbn [JS.toLowerCase].
    apply (proj2 (lower_char_p c1)) in H1. apply (proj2 (lower_char_s c2)) in H2.
    apply (proj2 (lower_char_d c3)) in H3.
    rewrite H1, H2, H3. reflexivity.
Qed.

Lemma match_to_end_lower (pat s : string) :
  JS.match_to_end_i pat s = String.eqb (JS.toLowerCase pat) (JS.toLowerCase s).
Proof.
  revert s. induction pat as [| p pat IH]; intros [| c s]; cbn; try reflexivity.
  rewrite IH. reflexivity.
Qed.

Lemma match_to_end_psd (e : string) :
  JS.match_to_end_i ".psd" e = true <-> JS.toLowerCase e = ".psd".
Proof.
  rewrite match_to_end_lower, String.eqb_eq. cbn [JS.toLowerCase].
  split; intros H; symmetry; exact H.
Qed.

Lemma match_to_end_length (pat s : string) :
  JS.match_to_end_i pat s = true -> String.length s = String.length pat.
Proof.
  revert s. induction pat as [| p pat IH]; intros [| c s]; cbn; intros H;
    try discriminate H; [reflexivity |].
  apply andb_true_iff in H as [_ H]. f_equal. apply IH. exact H.
Qed.

Lemma length_append (a b : string) :
  String.length (a +:+ b) = (String.length a + String.length b)%nat.
Proof. induction a as [| c a IH]; simpl; [reflexivity | rewrite IH; reflexivity]. Qed.

Lemma substring_whole (t : string) : substring 0 (String.length t) t = t.
Proof. induction t as [| c t IH]; simpl; [reflexivity | rewrite IH; reflexivity]. Qed.

Lemma substring_after (b t : string) (k : nat) :
  substring (String.length b) k (b +:+ t) = substring 0 k t.
Proof. induction b as [| c b IH]; simpl; [reflexivity | exact IH]. Qed.

Lemma substring_split (s : string) (n : nat) :
  (n <= String.length s)%nat ->
  s = substring 0 n s +:+ substring n (String.length s - n) s.
Proof.
  revert n. induction s as [| c s IH]; intros [| n] Hn; simpl in *.
  - reflexivity.
  - lia.
  - rewrite substring_whole. reflexivity.
  - change (String c s = String c (substring 0 n s +:+ substring n (String.length s - n) s)).
    f_equal. apply IH. lia.
Qed.

Lemma append_cons (c : ascii) (a b : string) :
  String c a +:+ b = String c (a +:+ b).
Proof. reflexivity. Qed.

Lemma endsWith_iff (s t : string) :
  JS.endsWith s t = true <-> exists b, s = b +:+ t.
Proof.
  unfold JS.endsWith. split.
  - destruct (Nat.ltb_spec (String.length s) (String.length t)) as [Hlt | Hge];
      [intros H; discriminate H |].
    intros H. apply String.eqb_eq in H.
    exists (substring 0 (String.length s - String.length t) s).
    rewrite (substring_split s (String.length s - String.length t)) at 1 by lia.
    f_equal.
    replace (String.length s - (String.length s - String.length t))%nat
      with (String.length t) by lia.
    exact H.
  - intros [b ->]. rewrite length_append.
    destruct (Nat.ltb_spec (String.length b + String.length t) (String.length t)) as [Hlt | Hge];
      [lia |].
    replace (String.length b + String.length t - String.length t)%nat
      with (String.length b) by lia.
    rewrite substring_after, substring_whole. apply String.eqb_refl.
Qed.

Lemma toLowerCase_append (a b : string) :
  JS.toLowerCase (a +:+ b) = JS.toLowerCase a +:+ JS.toLowerCase b.
Proof.
  induction a as [| c a IH]; [reflexivity |].
  rewrite append_cons. cbn [JS.toLowerCase]. rewrite append_cons, IH. reflexivity.
Qed.

Lemma toLowerCase_append_inv (s x y : string) :
  JS.toLowerCase s = x +:+ y ->
  exists b e, s = b +:+ e /\ JS.toLowerCase b = x /\ JS.toLowerCase e = y.
Proof.
  revert s. induction x as [| c x IH]; intros s H.
  - exists EmptyString, s. auto.
  - destruct s as [| d s]; [discriminate H |].
    rewrite append_cons in H. cbn [JS.toLowerCase] in H.
    injection H as Hc Hs. destruct (IH s Hs) as (b & e & -> & Hb & He).
    exists (String d b), e. rewrite append_cons. cbn [JS.toLowerCase].
    rewrite Hc, Hb. auto.
Qed.

(** The test of [handleFile] accepts exactly the names that end in [.psd]
    in some letter case. *)
Lemma has_extension_iff (name : string) :
  App.has_extension name = true <-> ends_in_psd name.
Proof.
  unfold App.has_extension, ends_in_psd. rewrite endsWith_iff. split.
  - intros [b' H]. apply toLowerCase_append_inv in H as (b & e & -> & _ & He).
    exists b, e. split; [reflexivity | apply toLowerCase_psd; exact He].
  - intros (b & e & -> & He). exists (JS.toLowerCase b).
    rewrite toLowerCase_append. f_equal. apply toLowerCase_psd. exact He.
Qed.

Lemma replace_suffix_unfold (pat s : string) :
  JS.replace_suffix_i pat s =
  if JS.match_to_end_i pat s then EmptyString
  else match s with
       | EmptyString => EmptyString
       | String c r => String c (JS.replace_suffix_i pat r)
       end.
Proof. destruct s; reflexivity. Qed.

Lemma replace_suffix_matching (pat b e : string) :
  JS.match_to_end_i pat e = true -> JS.replace_suffix_i pat (b +:+ e) = b.
Proof.
  intros He. induction b as [| c b IH].
  - change (EmptyString +:+ e) with e. rewrite replace_suffix_unfold, He. reflexivity.
  - rewrite append_cons, replace_suffix_unfold.
    destruct (JS.match_to_end_i pat (String c (b +:+ e))) eqn:Hm.
    + apply match_to_end_length in Hm. apply match_to_end_length in He.
      cbn [String.length] in Hm. rewrite length_append in Hm. lia.
    + rewrite IH. reflexivity.
Qed.

Lemma replace_suffix_no_match (pat s : string) :
  (forall b e, s = b +:+ e -> JS.match_to_end_i pat e = false) ->
  JS.replace_suffix_i pat s = s.
Proof.
  induction s as [| c s IH]; intros Hno.
  - rewrite replace_suffix_unfold. destruct (JS.match_to_end_i pat ""); reflexivity.
  - rewrite replace_suffix_unfold, (Hno EmptyString (String c s) eq_refl).
    f_equal. apply IH. intros b e ->. apply (Hno (String c b) e). reflexivity.
Qed.

(** Line 176: [fileName.replace(/\.psd$/i, '')] removes a trailing [.psd]. *)
Lemma replace_strips_psd (name : string) :
  strips_psd name (JS.replace_suffix_i ".psd" name).
Proof.
  destruct (App.has_extension name) eqn:Hext.
  - apply has_extension_iff in Hext as (b & e & -> & He). left.
    exists e. split; [| exact He].
    rewrite replace_suffix_matching; [reflexivity |].
    apply match_to_end_psd, toLowerCase_psd. exact He.
  - assert (Hno : ~ ends_in_psd name).
    { intros H. apply has_extension_iff in H. congruence. }
    right. split; [exact Hno |].
    apply replace_suffix_no_match. intros b e -> .
    destruct (JS.match_to_end_i ".psd" e) eqn:Hm; [| reflexivity].
    exfalso. apply Hno. exists b, e. split; [reflexivity |].
    apply toLowerCase_psd, match_to_end_psd. exact Hm.
Qed.

Lemma Number_toString_reads (n : Z) : 0 < n -> reads_as (JS.Number_toString n) n.
Proof.
  intros Hn. unfold reads_as, JS.Number_toString.
  rewrite NilZero.isi.
  - cbn [option_map]. rewrite DecimalZ.of_to. reflexivity.
  - destruct n as [| p | p]; try lia. cbn. intros [= H].
    exact (DecimalPos.Unsigned.to_uint_nonnil p H).
  - destruct n as [| p | p]; try lia. cbn. discriminate.
Qed.

Lemma export_size_positive (n : Z) (s : Q) : 0 < export_size n s.
Proof. unfold export_size, JS.Math_max. lia. Qed.

(** ** Decimal numerals *)

Lemma to_uint_leading_digit (p : positive) :
  match Pos.to_uint p with
  | Decimal.Nil | Decimal.D0 _ => False
  | _ => True
  end.
Proof.
  pose proof (DecimalPos.Unsigned.to_uint_nonzero p) as Hnz.
  pose proof (DecimalPos.Unsigned.to_of (Pos.to_uint p)) as Hnorm.
  rewrite DecimalPos.Unsigned.of_to in Hnorm. cbn [N.to_uint] in Hnorm.
  destruct (Pos.to_uint p) as [| l | l | l | l | l | l | l | l | l | l] eqn:E; try exact I.
  - exact (DecimalPos.Unsigned.to_uint_nonnil p E).
  - rewrite DecimalFacts.unorm_D0 in Hnorm.
    unfold Decimal.unorm in Hnorm.
    destruct (Decimal.nzhead l) as [| l' | l' | l' | l' | l' | l' | l' | l' | l' | l'] eqn:El;
      try discriminate Hnorm.
    + apply Hnz. exact Hnorm.
    + exact (DecimalFacts.nzhead_nonzero l l' El).
Qed.

Lemma Number_toString_canonical (n : Z) :
  0 < n -> canonical_numeral (JS.Number_toString n) n.
Proof.
  intros Hn. split; [apply Number_toString_reads, Hn |].
  destruct n as [| p | p]; try lia.
  unfold JS.Number_toString. cbn [Z.to_int NilZero.string_of_int].
  pose proof (to_uint_leading_digit p) as Hd.
  destruct (Pos.to_uint p); try contradiction; cbn; discriminate.
Qed.

(** A positive integer has exactly one numeral without leading zero. *)
Lemma canonical_numeral_unique (s s' : string) (n : Z) :
  0 < n -> canonical_numeral s n -> canonical_numeral s' n -> s = s'.
Proof.
  assert (Hone : forall t, canonical_numeral t n -> 0 < n ->
                           t = NilZero.string_of_int (Z.to_int n)).
  { intros t [Hread Hlead] Hn. unfold reads_as in Hread.
    destruct (NilZero.int_of_string t) as [d |] eqn:Hparse; [| discriminate Hread].
    cbn in Hread. injection Hread as Hval.
    apply NilZero.sis in Hparse. subst t. f_equal.
    rewrite <- Hval, DecimalZ.to_of.
    destruct d as [u | u].
    - cbn [Decimal.norm]. f_equal.
      destruct u; cbn in Hlead; try reflexivity; exfalso; apply Hlead; reflexivity.
    - exfalso. cbn [Z.of_int] in Hval.
      assert (0 <= Z.of_uint u) by (unfold Z.of_uint; apply N2Z.is_nonneg). lia. }
  intros Hn Hs Hs'. rewrite (Hone s Hs Hn), (Hone s' Hs' Hn). reflexivity.
Qed.

Example numeral_with_leading_zero :
  reads_as "050" 50 /\ ~ canonical_numeral "050" 50 /\ canonical_numeral "50" 50.
Proof.
  split; [reflexivity |]. split.
  - intros [_ H]. apply H. reflexivity.
  - split; [reflexivity | discriminate].
Qed.

(** C7: a successful export downloads a file named [<base>-<W>x<H>.<ext>],
    [base] being the file name without a trailing [.psd] (in any letter
    case), [W] and [H] the decimal numerals (without leading zero) of the
    canvas dimensions and [ext] the format; the encoder receives the JPEG
    quality only for JPEG. *)
Theorem download_name (env : ExportEnv) (st : AppState) (p : ParsedComposite) (blob : Blob) :
  parsed st = Some p -> context2d_available env = true -> toBlob_result env = Some blob ->
  exists (base sw sh ext : string),
    strips_psd (fileName p) base /\
    canonical_numeral sw (surface_width (render (snd (onDownload env st)))) /\
    canonical_numeral sh (surface_height (render (snd (onDownload env st)))) /\
    ext = match format st with png => "png" | jpg => "jpg" end /\
    download_names (snd (onDownload env st))
      = [base +:+ "-" +:+ sw +:+ "x" +:+ sh +:+ "." +:+ ext] /\
    filter is_download (snd (onDownload env st))
      = [CreateObjectURL blob; AnchorSetHref;
         AnchorSetDownload (base +:+ "-" +:+ sw +:+ "x" +:+ sh +:+ "." +:+ ext);
         AnchorClick] /\
    toBlob_calls (snd (onDownload env st))
      = [match format st with
         | png => ("image/png", None)
         | jpg => ("image/jpeg", Some (jpgQuality st))
         end] /\
    fst (onDownload env st) = st.
Proof.
  intros Hp Hc Hb.
  exists (JS.replace_suffix_i ".psd" (fileName p)),
         (JS.Number_toString (export_size (width p) (scale st))),
         (JS.Number_toString (export_size (height p) (scale st))),
         (format_string (format st)).
  split; [apply replace_strips_psd |].
  run_export Hp.
  destruct (format st); cbn;
    (split; [apply Number_toString_canonical, export_size_positive |]);
    (split; [apply Number_toString_canonical, export_size_positive |]);
    repeat split; reflexivity.
Qed.

Lemma download_name_witness :
  exists (base sw sh ext : string),
    strips_psd "Photo.PSD" base /\
    canonical_numeral sw (surface_width (render (snd (onDownload ok_env sample_state)))) /\
    canonical_numeral sh (surface_height (render (snd (onDownload ok_env sample_state)))) /\
    ext = "png" /\
    download_names (snd (onDownload ok_env sample_state))
      = [base +:+ "-" +:+ sw +:+ "x" +:+ sh +:+ "." +:+ ext] /\
    filter is_download (snd (onDownload ok_env sample_state))
      = [CreateObjectURL 7%nat; AnchorSetHref;
         AnchorSetDownload (base +:+ "-" +:+ sw +:+ "x" +:+ sh +:+ "." +:+ ext);
         AnchorClick] /\
    toBlob_calls (snd (onDownload ok_env sample_state)) = [("image/png", None)] /\
    fst (onDownload ok_env sample_state) = sample_state.
Proof.
  apply (download_name ok_env sample_state sample_composite 7%nat); reflexivity.
Defined.

Example onDownload_sample :
  onDownload ok_env sample_state =
  (sample_state,
   [CreateCanvas; SetCanvasWidth 50; SetCanvasHeight 50; GetContext2d true;
    ClearRect 0 0 50 50;
    SetImageSmoothingEnabled true; SetImageSmoothingQuality "high";
    DrawImage 0%nat 0 0 50 50;
    ToBlob "image/png" None;
    CreateObjectURL 7%nat; AnchorSetHref; AnchorSetDownload "Photo-50x50.png";
    AnchorClick; RevokeObjectURL]).
Proof. vm_compute. reflexivity. Qed.

Example onDownload_sample_jpg :
  snd (onDownload ok_env (setScale 1 sample_jpg_state)) =
   [CreateCanvas; SetCanvasWidth 100; SetCanvasHeight 100; GetContext2d false;
    SetFillStyle "#ffffff"; FillRect 0 0 100 100;
    SetImageSmoothingEnabled false; SetImageSmoothingQuality "high";
    DrawImage 0%nat 0 0 100 100;
    ToBlob "image/jpeg" (Some (9 # 10)%Q);
    CreateObjectURL 7%nat; AnchorSetHref; AnchorSetDownload "Photo-100x100.jpg";
    AnchorClick; RevokeObjectURL].
Proof. vm_compute. reflexivity. Qed.

(** ** [handleFile] *)

(** C4: a file whose name does not end in [.psd] (letter case ignored) is
    rejected with an error message before any decoding: no decoder call, no
    message to the worker, no new Decoded Composite, no bitmap created or
    closed; a name that ends in [.psd] in any letter case passes the test,
    and the file is then read for decoding. *)
Theorem extension_validation (env : App.Env) (workerRef : bool) (file : File) (w : World) :
  (App.has_extension (file_name file) = true <-> ends_in_psd (file_name file)) /\
  (~ ends_in_psd (file_name file) ->
   App.handleFile env workerRef file w =
     (inr tt,
      {| state := setError (Some "Please select a .psd file.")
                  (setIsParsing false (setIsParsing true (setError None (state w))));
         bitmaps := bitmaps w; trace := trace w; to_worker := to_worker w |}) /\
   parsed (state (snd (App.handleFile env workerRef file w))) = parsed (state w)) /\
  (ends_in_psd (file_name file) ->
   exists rest,
     trace (snd (App.handleFile env workerRef file w)) =
       trace w ++ (if workerRef then ArrayBuffer (file_name file) else ImportAgPsd) :: rest).
Proof.
  split; [apply has_extension_iff |]. split.
  - intros Hno.
    assert (Hext : App.has_extension (file_name file) = false).
    { destruct (App.has_extension (file_name file)) eqn:E; [| reflexivity].
      exfalso. apply Hno, has_extension_iff, E. }
    run_async. rewrite Hext. cbn. split; reflexivity.
  - intros Hyes. apply has_extension_iff in Hyes.
    run_async. rewrite Hyes. cbn [negb].
    destruct workerRef.
    + destruct (App.arrayBuffer_error env); cbn;
        eexists; rewrite <- ?app_assoc; reflexivity.
    + destruct (App.import_error env); cbn; [eexists; reflexivity |].
      destruct (App.arrayBuffer_error env); cbn;
        [eexists; rewrite <- !app_assoc; reflexivity |].
      destruct (App.readPsd env _ _) as [e | psd]; cbn;
        [eexists; rewrite <- !app_assoc; reflexivity |].
      destruct (psd_canvas psd); cbn;
        [| eexists; rewrite <- !app_assoc; reflexivity].
      destruct (App.createImageBitmap_error env); cbn;
        [eexists; rewrite <- !app_assoc; reflexivity |].
      destruct (parsed (state w)); cbn; eexists; rewrite <- !app_assoc; reflexivity.
Qed.

Lemma extension_validation_witness :
  (App.handleFile (sample_app_env sample_psd) true text_file (world (initial true)) =
     (inr tt,
      {| state := setError (Some "Please select a .psd file.")
                    (setIsParsing false (setIsParsing true (setError None initial_state)));
         bitmaps := no_bitmaps; trace := []; to_worker := [] |}) /\
   parsed (state (snd (App.handleFile (sample_app_env sample_psd) true text_file
                         (world (initial true))))) = None) /\
  (exists rest,
     trace (snd (App.handleFile (sample_app_env sample_psd) true sample_file
                   (world (initial true)))) = [] ++ ArrayBuffer "Photo.PSD" :: rest).
Proof.
  split.
  - destruct (extension_validation (sample_app_env sample_psd) true text_file
                (world (initial true))) as (Hiff & Hreject & _).
    apply Hreject. intros H. apply Hiff in H. vm_compute in H. discriminate H.
  - destruct (extension_validation (sample_app_env sample_psd) true sample_file
                (world (initial true))) as (Hiff & _ & Hpass).
    apply Hpass, Hiff. reflexivity.
Defined.

(** ** The worker *)

(** C5: the worker answers a parse request with exactly one message, a
    [parsed] message that carries the file name of the request, the decoded
    width and height and a new bitmap, or an [error] message (and then no
    bitmap was created); a decoded PSD without composite canvas gives the
    "No composite image" error message and no bitmap. *)
Theorem worker_replies_once (env : Worker.Env) (name : string)
    (buffer : list Byte.byte) (h : Bitmaps) :
  exists m : WorkerResponse,
    fst (fst (Worker.onmessage env (ParseRequest name buffer) h)) = [m] /\
    match m with
    | MsgParsed f wd ht b =>
      f = name /\
      (exists psd, Worker.readPsd env buffer {| skipLayerImageData := true; skipThumbnail := true |} = inr psd /\
                   wd = psd_width psd /\ ht = psd_height psd) /\
      (b, snd (fst (Worker.onmessage env (ParseRequest name buffer) h))) = new_bitmap h
    | MsgError _ =>
      snd (fst (Worker.onmessage env (ParseRequest name buffer) h)) = h
    end /\
    (Worker.OffscreenCanvas_defined env = true ->
     forall psd, Worker.readPsd env buffer {| skipLayerImageData := true; skipThumbnail := true |} = inr psd ->
       psd_canvas psd = None ->
       m = MsgError "No composite image found in this PSD (or unsupported PSD features)." /\
       snd (fst (Worker.onmessage env (ParseRequest name buffer) h)) = h).
Proof.
  unfold Worker.onmessage.
  destruct (Worker.OffscreenCanvas_defined env); cbn [negb].
  - destruct (Worker.readPsd env buffer {| skipLayerImageData := true; skipThumbnail := true |}) as [e | psd] eqn:Hread.
    + eexists. split; [reflexivity |]. split; [reflexivity |].
      intros _ psd Hpsd. discriminate Hpsd.
    + destruct (psd_canvas psd) as [canvas |] eqn:Hcanvas.
      * destruct (has_transferToImageBitmap canvas); cbn [negb].
        -- eexists. split; [reflexivity |]. split.
           ++ split; [reflexivity |]. split; [| reflexivity].
              exists psd. auto.
           ++ intros _ psd' [= <-] Hnone. congruence.
        -- eexists. split; [reflexivity |]. split; [reflexivity |].
           intros _ psd' [= <-] Hnone. congruence.
      * eexists. split; [reflexivity |]. split; [reflexivity |].
        intros _ psd' _ _. split; reflexivity.
  - eexists. split; [reflexivity |]. split; [reflexivity |].
    intros H. discriminate H.
Qed.

Lemma worker_replies_once_witness :
  exists m : WorkerResponse,
    fst (fst (Worker.onmessage (sample_worker_env flat_psd)
                (ParseRequest "Photo.PSD" []) no_bitmaps)) = [m] /\
    m = MsgError "No composite image found in this PSD (or unsupported PSD features)." /\
    snd (fst (Worker.onmessage (sample_worker_env flat_psd)
                (ParseRequest "Photo.PSD" []) no_bitmaps)) = no_bitmaps.
Proof.
  destruct (worker_replies_once (sample_worker_env flat_psd) "Photo.PSD" [] no_bitmaps)
    as (m & Hone & _ & Hflat).
  exists m. split; [exact Hone |].
  apply (Hflat eq_refl flat_psd eq_refl eq_refl).
Defined.

Example worker_sample :
  Worker.onmessage (sample_worker_env sample_psd) (ParseRequest "Photo.PSD" []) no_bitmaps
  = ([MsgParsed "Photo.PSD" 100 100 0%nat],
     {| next_bitmap := 1; open_bitmaps := {[ 0%nat ]} ∪ ∅ |},
     [ReadPsd [] {| skipLayerImageData := true; skipThumbnail := true |}]).
Proof. reflexivity. Qed.

(** ** The two decoding paths *)

Lemma decoder_calls_app (t1 t2 : list Effect) :
  decoder_calls (t1 ++ t2) = decoder_calls t1 ++ decoder_calls t2.
Proof. apply omap_app. Qed.

(** C8: the main-thread path and the worker path hand the decoder the same
    arguments: the bytes of the file and the options
    [{skipLayerImageData: true, skipThumbnail: true}].  In the worker path
    the component makes no decoder call itself; it posts one request, and
    the worker's only decoder call for that request is the one the
    main-thread path makes. *)
Theorem same_decoder_request (aenv : App.Env) (wenv : Worker.Env) (file : File)
    (w : World) (h : Bitmaps) :
  App.has_extension (file_name file) = true ->
  App.arrayBuffer_error aenv = None -> App.import_error aenv = None ->
  Worker.OffscreenCanvas_defined wenv = true ->
  exists (req : WorkerData) (call : list Byte.byte * ReadOptions),
    call = (file_bytes file, {| skipLayerImageData := true; skipThumbnail := true |}) /\
    decoder_calls (trace (snd (App.handleFile aenv false file w)))
      = decoder_calls (trace w) ++ [call] /\
    to_worker (snd (App.handleFile aenv false file w)) = to_worker w /\
    decoder_calls (trace (snd (App.handleFile aenv true file w)))
      = decoder_calls (trace w) /\
    to_worker (snd (App.handleFile aenv true file w)) = to_worker w ++ [req] /\
    decoder_calls (snd (Worker.onmessage wenv req h)) = [call].
Proof.
  intros Hext Hbuf Himp Hoff.
  exists (ParseRequest (file_name file) (file_bytes file)). eexists.
  split; [reflexivity |]. split; [| split; [| split; [| split]]].
  - run_async. rewrite Hext, Himp, Hbuf. cbn.
    destruct (App.readPsd aenv _ _) as [e | psd]; cbn.
    + rewrite !decoder_calls_app. cbn. rewrite !app_nil_r. reflexivity.
    + destruct (psd_canvas psd); cbn.
      * destruct (App.createImageBitmap_error aenv); cbn.
        -- rewrite !decoder_calls_app. cbn. rewrite !app_nil_r. reflexivity.
        -- destruct (parsed (state w)); cbn;
             rewrite !decoder_calls_app; cbn; rewrite !app_nil_r; reflexivity.
      * rewrite !decoder_calls_app. cbn. rewrite !app_nil_r. reflexivity.
  - run_async. rewrite Hext, Himp, Hbuf. cbn.
    destruct (App.readPsd aenv _ _) as [e | psd]; cbn; [reflexivity |].
    destruct (psd_canvas psd); cbn; [| reflexivity].
    destruct (App.createImageBitmap_error aenv); cbn; [reflexivity |].
    destruct (parsed (state w)); reflexivity.
  - run_async. rewrite Hext, Hbuf. cbn.
    rewrite !decoder_calls_app. cbn. rewrite !app_nil_r. reflexivity.
  - run_async. rewrite Hext, Hbuf. reflexivity.
  - unfold Worker.onmessage. rewrite Hoff. cbn [negb].
    destruct (Worker.readPsd wenv _ _) as [e | psd]; [reflexivity |].
    destruct (psd_canvas psd) as [canvas |]; [| reflexivity].
    destruct (has_transferToImageBitmap canvas); reflexivity.
Qed.

Lemma same_decoder_request_witness :
  exists (req : WorkerData) (call : list Byte.byte * ReadOptions),
    call = (file_bytes sample_file,
            {| skipLayerImageData := true; skipThumbnail := true |}) /\
    decoder_calls (trace (snd (App.handleFile (sample_app_env sample_psd) false
                                 sample_file (world (initial false)))))
      = [] ++ [call] /\
    to_worker (snd (App.handleFile (sample_app_env sample_psd) false sample_file
                      (world (initial false)))) = [] /\
    decoder_calls (trace (snd (App.handleFile (sample_app_env sample_psd) true
                                 sample_file (world (initial false)))))
      = [] /\
    to_worker (snd (App.handleFile (sample_app_env sample_psd) true sample_file
                      (world (initial false)))) = [] ++ [req] /\
    decoder_calls (snd (Worker.onmessage (sample_worker_env sample_psd) req no_bitmaps))
      = [call].
Proof.
  apply (same_decoder_request (sample_app_env sample_psd) (sample_worker_env sample_psd)
           sample_file (world (initial false)) no_bitmaps); reflexivity.
Defined.

(** ** Bitmap resources *)

Lemma onDownload_parsed (env : ExportEnv) (st : AppState) :
  parsed (fst (onDownload env st)) = parsed st.
Proof.
  unfold onDownload. destruct (parsed st) as [p |] eqn:Hp; [| exact Hp].
  destruct (context2d_available env); cbn [negb]; [| exact Hp].
  destruct (toBlob_result env); exact Hp.
Qed.

(** [handleFile] either leaves the composite and the bitmaps alone, or it
    installs a composite on a new bitmap and closes the previous one. *)
Lemma handleFile_outcome (env : App.Env) (workerRef : bool) (file : File) (w : World) :
  (parsed (state (snd (App.handleFile env workerRef file w))) = parsed (state w) /\
   bitmaps (snd (App.handleFile env workerRef file w)) = bitmaps w) \/
  (exists p',
     workerRef = false /\
     parsed (state (snd (App.handleFile env workerRef file w))) = Some p' /\
     bitmap p' = next_bitmap (bitmaps w) /\
     bitmaps (snd (App.handleFile env workerRef file w))
       = superseded (parsed (state w)) (snd (new_bitmap (bitmaps w)))).
Proof.
  run_async.
  destruct (App.has_extension (file_name file)); cbn; [| left; split; reflexivity].
  destruct workerRef.
  - destruct (App.arrayBuffer_error env); cbn; left; split; reflexivity.
  - destruct (App.import_error env); cbn; [left; split; reflexivity |].
    destruct (App.arrayBuffer_error env); cbn; [left; split; reflexivity |].
    destruct (App.readPsd env _ _) as [e | psd]; cbn; [left; split; reflexivity |].
    destruct (psd_canvas psd); cbn; [| left; split; reflexivity].
    destruct (App.createImageBitmap_error env); cbn; [left; split; reflexivity |].
    right. destruct (parsed (state w)); cbn; eexists; repeat split; reflexivity.
Qed.

Lemma worker_onmessage_outcome (msg : WorkerResponse) (w : World) :
  match msg with
  | MsgError _ =>
    parsed (state (snd (App.worker_onmessage msg w))) = parsed (state w) /\
    bitmaps (snd (App.worker_onmessage msg w)) = bitmaps w
  | MsgParsed name wd ht b =>
    parsed (state (snd (App.worker_onmessage msg w)))
      = Some {| fileName := name; width := wd; height := ht; bitmap := b;
                usedWorker := true |} /\
    bitmaps (snd (App.worker_onmessage msg w)) = superseded (parsed (state w)) (bitmaps w)
  end.
Proof.
  destruct msg as [name wd ht b | message]; run_async.
  - cbn. destruct (parsed (state w)); cbn; split; reflexivity.
  - split; reflexivity.
Qed.

Lemma Worker_onmessage_outcome (env : Worker.Env) (data : WorkerData) (h : Bitmaps) :
  (message_bitmaps (fst (fst (Worker.onmessage env data h))) = [] /\
   snd (fst (Worker.onmessage env data h)) = h) \/
  (message_bitmaps (fst (fst (Worker.onmessage env data h))) = [next_bitmap h] /\
   snd (fst (Worker.onmessage env data h)) = snd (new_bitmap h)).
Proof.
  unfold Worker.onmessage. destruct data as [name buffer |]; [| left; split; reflexivity].
  destruct (Worker.OffscreenCanvas_defined env); cbn [negb]; [| left; split; reflexivity].
  destruct (Worker.readPsd env _ _) as [e | psd]; [left; split; reflexivity |].
  destruct (psd_canvas psd) as [canvas |]; [| left; split; reflexivity].
  destruct (has_transferToImageBitmap canvas); cbn [negb];
    [right | left]; split; reflexivity.
Qed.

Lemma install_fresh (prev : option ParsedComposite) (ms : list ImageBitmap) (h : Bitmaps) :
  NoDup (held_list prev ++ ms) ->
  (forall b, b ∈ held_list prev ++ ms -> (b < next_bitmap h)%nat) ->
  open_bitmaps h = list_to_set (held_list prev ++ ms) ->
  NoDup ([next_bitmap h] ++ ms) /\
  (forall b, b ∈ [next_bitmap h] ++ ms ->
     (b < next_bitmap (superseded prev (snd (new_bitmap h))))%nat) /\
  open_bitmaps (superseded prev (snd (new_bitmap h))) = list_to_set ([next_bitmap h] ++ ms).
Proof.
  intros Hnd Hlt Hopen.
  assert (Hfresh : next_bitmap h ∉ held_list prev ++ ms).
  { intros Hin. apply Hlt in Hin. lia. }
  apply NoDup_app in Hnd as (Hnd1 & Hdisj & Hnd2).
  split; [| split].
  - apply NoDup_app. split; [apply NoDup_singleton |]. split; [| exact Hnd2].
    intros x Hx Hin. apply list_elem_of_singleton in Hx. subst x.
    apply Hfresh. apply elem_of_app. right. exact Hin.
  - intros b Hb.
    assert (Hn : next_bitmap (superseded prev (snd (new_bitmap h))) = S (next_bitmap h))
      by (destruct prev; reflexivity).
    rewrite Hn. apply elem_of_app in Hb as [Hb | Hb].
    + apply list_elem_of_singleton in Hb. lia.
    + specialize (Hlt b). rewrite elem_of_app in Hlt. specialize (Hlt (or_intror Hb)). lia.
  - destruct prev as [p |]; cbn in *; rewrite Hopen.
    + assert (Hp : bitmap p ∉ ms) by (apply Hdisj; left).
      assert (Hne : bitmap p ≠ next_bitmap h).
      { intros Heq. apply Hfresh. rewrite <- Heq. left. }
      clear - Hp Hne. set_solver.
    + clear. set_solver.
Qed.

Lemma post_fresh (prev : option ParsedComposite) (ms : list ImageBitmap) (h : Bitmaps) :
  NoDup (held_list prev ++ ms) ->
  (forall b, b ∈ held_list prev ++ ms -> (b < next_bitmap h)%nat) ->
  open_bitmaps h = list_to_set (held_list prev ++ ms) ->
  NoDup (held_list prev ++ ms ++ [next_bitmap h]) /\
  (forall b, b ∈ held_list prev ++ ms ++ [next_bitmap h] ->
     (b < next_bitmap (snd (new_bitmap h)))%nat) /\
  open_bitmaps (snd (new_bitmap h)) = list_to_set (held_list prev ++ ms ++ [next_bitmap h]).
Proof.
  intros Hnd Hlt Hopen.
  assert (Hfresh : next_bitmap h ∉ held_list prev ++ ms).
  { intros Hin. apply Hlt in Hin. lia. }
  split; [| split].
  - rewrite app_assoc. apply NoDup_app. split; [exact Hnd |].
    split; [| apply NoDup_singleton].
    intros x Hx Hin. apply list_elem_of_singleton in Hin. subst x. exact (Hfresh Hx).
  - intros b Hb. cbn. rewrite app_assoc in Hb. apply elem_of_app in Hb as [Hb | Hb].
    + apply Hlt in Hb. lia.
    + apply list_elem_of_singleton in Hb. lia.
  - cbn. rewrite Hopen. clear. set_solver.
Qed.

Lemma deliver_parsed (prev : option ParsedComposite) (b : ImageBitmap)
    (ms : list ImageBitmap) (h : Bitmaps) :
  NoDup (held_list prev ++ b :: ms) ->
  (forall x, x ∈ held_list prev ++ b :: ms -> (x < next_bitmap h)%nat) ->
  open_bitmaps h = list_to_set (held_list prev ++ b :: ms) ->
  NoDup ([b] ++ ms) /\
  (forall x, x ∈ [b] ++ ms -> (x < next_bitmap (superseded prev h))%nat) /\
  open_bitmaps (superseded prev h) = list_to_set ([b] ++ ms).
Proof.
  intros Hnd Hlt Hopen.
  apply NoDup_app in Hnd as (Hnd1 & Hdisj & Hnd2).
  split; [exact Hnd2 | split].
  - intros x Hx.
    assert (Hn : next_bitmap (superseded prev h) = next_bitmap h)
      by (destruct prev; reflexivity).
    rewrite Hn. apply Hlt. apply elem_of_app. right. exact Hx.
  - destruct prev as [p |]; cbn in *; rewrite Hopen.
    + assert (Hp : bitmap p ∉ b :: ms) by (apply Hdisj; left).
      clear - Hp. set_solver.
    + reflexivity.
Qed.

Lemma message_bitmaps_app (l k : list WorkerResponse) :
  message_bitmaps (l ++ k) = message_bitmaps l ++ message_bitmaps k.
Proof. apply omap_app. Qed.

Lemma initial_accounted (canUseWorker : bool) : accounted (initial canUseWorker).
Proof.
  unfold accounted, holders. cbn. split; [apply NoDup_nil_2 |].
  split; [| reflexivity]. intros b Hb. apply elem_of_nil in Hb. contradiction.
Qed.

(** Every event keeps the bitmaps accounted for. *)
Lemma step_accounted (s : System) (ev : Event) : accounted s -> accounted (step s ev).
Proof.
  unfold accounted, holders. intros (Hnd & Hlt & Hopen).
  destruct ev as [file env | env | | | env | f | q | q | c]; cbn [step];
    try (cbn; auto; fail).
  - (* handleFile *)
    destruct (handleFile_outcome env (workerRef s) file (world s))
      as [[Hp Hb] | (p' & _ & Hp & Hfresh & Hb)];
      cbn -[message_bitmaps held_list superseded new_bitmap App.handleFile];
      rewrite Hp, Hb.
    + auto.
    + cbn [held_list]. rewrite Hfresh. apply (install_fresh _ _ _ Hnd Hlt Hopen).
  - (* the worker runs *)
    destruct (to_worker (world s)) as [| data rest]; [auto |].
    pose proof (Worker_onmessage_outcome env data (bitmaps (world s))) as Hout.
    destruct (Worker.onmessage env data (bitmaps (world s))) as [[posted h] calls].
    cbn [fst snd] in Hout. cbn -[message_bitmaps held_list new_bitmap].
    rewrite message_bitmaps_app.
    destruct Hout as [[-> ->] | [-> ->]].
    + rewrite app_nil_r. auto.
    + apply (post_fresh _ _ _ Hnd Hlt Hopen).
  - (* a reply is delivered *)
    destruct (to_main s) as [| msg rest] eqn:Hmsgs; [rewrite Hmsgs; auto |].
    pose proof (worker_onmessage_outcome msg (world s)) as Hout.
    destruct msg as [name wd ht b | message]; destruct Hout as [Hp Hb];
      cbn -[message_bitmaps held_list superseded App.worker_onmessage];
      rewrite Hp, Hb.
    + cbn [held_list bitmap]. apply (deliver_parsed _ _ _ _ Hnd Hlt Hopen).
    + auto.
  - (* onDownload *)
    pose proof (onDownload_parsed env (state (world s))) as Hp.
    destruct (onDownload env (state (world s))) as [st tr].
    cbn [fst] in Hp. cbn -[message_bitmaps held_list]. rewrite Hp. auto.
Qed.

Lemma run_snoc (canUseWorker : bool) (evs : list Event) (ev : Event) :
  run canUseWorker (evs ++ [ev]) = step (run canUseWorker evs) ev.
Proof. unfold run. rewrite fold_left_app. reflexivity. Qed.

Lemma run_accounted (canUseWorker : bool) (evs : list Event) :
  accounted (run canUseWorker evs).
Proof.
  induction evs as [| ev evs IH] using rev_ind.
  - apply initial_accounted.
  - rewrite run_snoc. apply step_accounted, IH.
Qed.

Lemma held_as_list (st : AppState) : held st = list_to_set (held_list (parsed st)).
Proof. unfold held. destruct (parsed st); cbn; set_solver. Qed.

Lemma open_is_held_or_in_flight (s : System) :
  accounted s ->
  open_bitmaps (bitmaps (world s)) = held (state (world s)) ∪ in_flight (to_main s).
Proof.
  intros (_ & _ & Hopen). rewrite Hopen, held_as_list. unfold holders, in_flight.
  apply list_to_set_app_L.
Qed.

Lemma replaced_is_closed (s : System) (ev : Event) (p : ParsedComposite) :
  parsed (state (world s)) = Some p ->
  parsed (state (world (step s ev))) <> Some p ->
  bitmap p ∉ open_bitmaps (bitmaps (world (step s ev))).
Proof.
  intros Hp Hne.
  destruct ev as [file env | env | | | env | f | q | q | c]; cbn [step] in *;
    try (exfalso; apply Hne; exact Hp).
  - destruct (handleFile_outcome env (workerRef s) file (world s))
      as [[Hp' Hb] | (p' & _ & Hp' & Hfresh & Hb)].
    + exfalso. apply Hne. cbn. rewrite Hp'. exact Hp.
    + cbn -[App.handleFile]. rewrite Hb, Hp. cbn. set_solver.
  - exfalso. apply Hne. destruct (to_worker (world s)) as [| data rest]; [exact Hp |].
    destruct (Worker.onmessage env data (bitmaps (world s))) as [[posted h] calls].
    exact Hp.
  - destruct (to_main s) as [| msg rest]; [exfalso; apply Hne; exact Hp |].
    pose proof (worker_onmessage_outcome msg (world s)) as Hout.
    destruct msg as [name wd ht b | message]; destruct Hout as [Hp' Hb].
    + cbn -[App.worker_onmessage]. rewrite Hb, Hp. cbn. set_solver.
    + exfalso. apply Hne. cbn -[App.worker_onmessage]. rewrite Hp'. exact Hp.
  - exfalso. apply Hne.
    pose proof (onDownload_parsed env (state (world s))) as Hd.
    destruct (onDownload env (state (world s))) as [st tr]. cbn in *.
    rewrite Hd. exact Hp.
Qed.

(** C3: in every state the page can reach, the open bitmaps are the bitmap
    of the displayed composite and the bitmaps of replies still on their way
    to the component, so once every reply is delivered at most one bitmap is
    open; and whenever an event replaces the displayed composite (a reply of
    the worker, or a decode on the main thread), the bitmap of the replaced
    composite is closed while the bitmap of the new one is open. *)
Theorem one_live_composite (canUseWorker : bool) (evs : list Event) (ev : Event) :
  let s := run canUseWorker evs in
  let s' := step s ev in
  open_bitmaps (bitmaps (world s')) = held (state (world s')) ∪ in_flight (to_main s') /\
  (to_main s' = [] -> (size (open_bitmaps (bitmaps (world s'))) <= 1)%nat) /\
  (forall p, parsed (state (world s)) = Some p ->
             parsed (state (world s')) <> Some p ->
             bitmap p ∉ open_bitmaps (bitmaps (world s'))) /\
  (forall p', parsed (state (world s')) = Some p' ->
              bitmap p' ∈ open_bitmaps (bitmaps (world s'))).
Proof.
  intros s s'.
  assert (Hacc : accounted s') by (apply step_accounted, run_accounted).
  pose proof (open_is_held_or_in_flight s' Hacc) as Hopen.
  split; [exact Hopen |]. split; [| split].
  - intros Hnone. rewrite Hopen, Hnone. unfold held, in_flight. cbn.
    rewrite union_empty_r_L.
    destruct (parsed (state (world s'))); [rewrite size_singleton | rewrite size_empty]; lia.
  - intros p. apply replaced_is_closed.
  - intros p' Hp'. rewrite Hopen. unfold held. rewrite Hp'. set_solver.
Qed.

Lemma one_live_composite_witness :
  let env := sample_app_env sample_psd in
  let s := run false [FileChosen sample_file env] in
  let s' := step s (FileChosen sample_file env) in
  (exists p, parsed (state (world s)) = Some p /\ bitmap p = 0%nat) /\
  (exists p', parsed (state (world s')) = Some p' /\ bitmap p' = 1%nat) /\
  (0%nat ∉ open_bitmaps (bitmaps (world s'))) /\
  (1%nat ∈ open_bitmaps (bitmaps (world s'))) /\
  (size (open_bitmaps (bitmaps (world s'))) <= 1)%nat.
Proof.
  intros env s s'.
  destruct (one_live_composite false [FileChosen sample_file env] (FileChosen sample_file env))
    as (_ & Hsize & Hclosed & Hopen).
  split; [eexists; split; vm_compute; reflexivity |].
  split; [eexists; split; vm_compute; reflexivity |].
  split; [| split].
  - apply (Hclosed {| fileName := "Photo.PSD"; width := 100; height := 100;
                      bitmap := 0%nat; usedWorker := false |});
      [vm_compute; reflexivity |].
    intros H. vm_compute in H. discriminate H.
  - apply (Hopen {| fileName := "Photo.PSD"; width := 100; height := 100;
                    bitmap := 1%nat; usedWorker := false |}).
    vm_compute. reflexivity.
  - apply Hsize. vm_compute. reflexivity.
Defined.

(** Two loads through the worker: the second reply closes bitmap 0. *)
Example worker_path_replaces :
  let env := sample_app_env sample_psd in
  let wenv := sample_worker_env sample_psd in
  let s := run true [FileChosen sample_file env; WorkerRuns wenv; MessageDelivered;
                     FileChosen sample_file env; WorkerRuns wenv; MessageDelivered] in
  parsed (state (world s))
    = Some {| fileName := "Photo.PSD"; width := 100; height := 100; bitmap := 1%nat;
              usedWorker := true |} /\
  closed_bitmaps (trace (world s)) = [0%nat] /\
  elements (open_bitmaps (bitmaps (world s))) = [1%nat].
Proof. vm_compute. repeat split; reflexivity. Qed.

(** A file with another extension changes neither composite nor bitmaps. *)
Example rejected_file_keeps_composite :
  let env := sample_app_env sample_psd in
  let s := run false [FileChosen sample_file env; FileChosen text_file env] in
  error (state (world s)) = Some "Please select a .psd file." /\
  (exists p, parsed (state (world s)) = Some p /\ bitmap p = 0%nat) /\
  elements (open_bitmaps (bitmaps (world s))) = [0%nat].
Proof. vm_compute. repeat split; try reflexivity. eexists. split; reflexivity. Qed.

(** * Further properties of the code *)

(** ** More on the export size *)

Lemma Math_round_quarters (n k : Z) :
  JS.Math_round (inject_Z n * (k # 4)) = (k * n + 2) / 4.
Proof.
  apply (rounds_to_unique (inject_Z n * (k # 4))); [apply Math_round_rounds |].
  pose proof (Z.div_mod (k * n + 2) 4 ltac:(lia)) as Hdiv.
  pose proof (Z.mod_pos_bound (k * n + 2) 4 ltac:(lia)) as Hmod.
  unfold rounds_to, Qle, Qlt, Qminus, Qplus, Qmult, Qopp, inject_Z. cbn.
  split; lia.
Qed.

(** X1: at the scale [k/4] of the slider the export size is the integer
    [max(1, floor((k*n + 2) / 4))]: a quarter of [k*n], halves rounded up.
    For the positions the slider has (k from 1 to 8) and a positive native
    size it lies between 1 and twice the native size. *)
Theorem export_size_quarters (n k : Z) :
  export_size n (k # 4) = Z.max 1 ((k * n + 2) / 4) /\
  (1 <= k <= 8 -> 0 < n -> 1 <= export_size n (k # 4) <= 2 * n) /\
  (0 < n -> export_size n (8 # 4) = 2 * n).
Proof.
  unfold export_size, JS.Math_max. rewrite !Math_round_quarters.
  split; [reflexivity |]. split.
  - intros Hk Hn. split; [lia |].
    apply Z.max_lub; [lia |].
    assert (Hlt : (k * n + 2) / 4 < 2 * n + 1)
      by (apply Z.div_lt_upper_bound; nia).
    lia.
  - intros Hn. replace (8 * n + 2) with (2 + (2 * n) * 4) by lia.
    rewrite Z.div_add by lia. change (2 / 4) with 0. lia.
Qed.

Lemma export_size_quarters_witness :
  export_size 101 (3 # 4) = Z.max 1 ((3 * 101 + 2) / 4) /\
  1 <= export_size 101 (3 # 4) <= 2 * 101 /\
  export_size 101 (8 # 4) = 2 * 101.
Proof.
  destruct (export_size_quarters 101 3) as (H1 & H2 & _).
  destruct (export_size_quarters 101 8) as (_ & _ & H3).
  split; [exact H1 |]. split; [apply H2; lia | apply H3; lia].
Defined.

(** X2: the export size never shrinks when the scale grows (for a
    non-negative native size) nor when the native size grows (for a
    non-negative scale). *)
Theorem export_size_monotone (n m : Z) (s t : Q) :
  (0 <= n -> (s <= t)%Q -> export_size n s <= export_size n t) /\
  (n <= m -> (0 <= s)%Q -> export_size n s <= export_size m s).
Proof.
  unfold export_size, JS.Math_max, JS.Math_round. split.
  - intros Hn Hst. apply Z.max_le_compat_l, Qfloor_resp_le.
    apply Qplus_le_compat; [| apply Qle_refl].
    rewrite (Qmult_comm _ s), (Qmult_comm _ t).
    apply Qmult_le_compat_r; [exact Hst |].
    change 0%Q with (inject_Z 0). rewrite <- Zle_Qle. exact Hn.
  - intros Hnm Hs. apply Z.max_le_compat_l, Qfloor_resp_le.
    apply Qplus_le_compat; [| apply Qle_refl].
    apply Qmult_le_compat_r; [| exact Hs].
    rewrite <- Zle_Qle. exact Hnm.
Qed.

Lemma export_size_monotone_witness :
  export_size 100 (1 # 2) <= export_size 100 (3 # 4) /\
  export_size 100 (1 # 2) <= export_size 150 (1 # 2).
Proof.
  destruct (export_size_monotone 100 150 (1 # 2) (3 # 4)) as [Hs _].
  destruct (export_size_monotone 100 150 (1 # 2) (1 # 2)) as [_ Hn].
  split; [apply Hs | apply Hn]; first [lia | discriminate].
Defined.

(** ** The export and the smoke test *)

Lemma append_assoc (a b c : string) : (a +:+ b) +:+ c = a +:+ (b +:+ c).
Proof.
  induction a as [| x a IH]; [reflexivity |].
  rewrite !append_cons, IH. reflexivity.
Qed.

(** X3: the name of a PNG download passes the file-name test of the smoke
    script ([suggested.toLowerCase().endsWith('.png')]), whatever the name
    of the PSD and the scale; a JPEG download does not pass it. *)
Theorem png_download_passes_smoke_test (env : ExportEnv) (st : AppState)
    (p : ParsedComposite) (blob : Blob) :
  parsed st = Some p -> context2d_available env = true -> toBlob_result env = Some blob ->
  exists name,
    download_names (snd (onDownload env st)) = [name] /\
    Smoke.filename_ok name = match format st with png => true | jpg => false end.
Proof.
  intros Hp Hc Hb. run_export Hp.
  set (base := JS.replace_suffix_i ".psd" (fileName p)).
  set (sw := JS.Number_toString (export_size (width p) (scale st))).
  set (sh := JS.Number_toString (export_size (height p) (scale st))).
  destruct (format st); cbn [format_string]; eexists; (split; [reflexivity |]).
  - apply endsWith_iff.
    exists (JS.toLowerCase (base +:+ "-" +:+ sw +:+ "x" +:+ sh)).
    rewrite <- (toLowerCase_append _ ".png"). f_equal.
    rewrite !append_assoc. reflexivity.
  - unfold Smoke.filename_ok.
    destruct (JS.endsWith _ ".png") eqn:E; [| reflexivity].
    apply endsWith_iff in E as [b E].
    assert (Hend : JS.endsWith
              (JS.toLowerCase (base +:+ "-" +:+ sw +:+ "x" +:+ sh +:+ "." +:+ "jpg")) ".jpg" = true).
    { apply endsWith_iff.
      exists (JS.toLowerCase (base +:+ "-" +:+ sw +:+ "x" +:+ sh)).
      rewrite <- (toLowerCase_append _ ".jpg"). f_equal.
      rewrite !append_assoc. reflexivity. }
    apply endsWith_iff in Hend as [b' Hend]. rewrite E in Hend.
    assert (Hlen : String.length b = String.length b').
    { apply (f_equal String.length) in Hend. rewrite !length_append in Hend.
      cbn in Hend. lia. }
    clear E. exfalso. revert b' Hend Hlen.
    induction b as [| c b IH]; intros [| c' b'] Hend Hlen; try discriminate Hlen.
    + discriminate Hend.
    + rewrite !append_cons in Hend. injection Hend as _ Hend.
      apply (IH b' Hend). cbn in Hlen. lia.
Qed.

Lemma png_download_passes_smoke_test_witness :
  exists name,
    download_names (snd (onDownload ok_env sample_state)) = [name] /\
    Smoke.filename_ok name = true.
Proof.
  apply (png_download_passes_smoke_test ok_env sample_state sample_composite 7%nat);
    reflexivity.
Defined.

(** ** The outcomes of [handleFile] *)

Lemma closed_bitmaps_app (t1 t2 : list Effect) :
  closed_bitmaps (t1 ++ t2) = closed_bitmaps t1 ++ closed_bitmaps t2.
Proof. apply omap_app. Qed.

(** The three ways [handleFile] can end: with an error message, with a
    request posted to the worker, or with a composite decoded on the main
    thread. *)
Lemma handleFile_cases (env : App.Env) (workerRef : bool) (file : File) (w : World) :
  let st0 := setIsParsing true (setError None (state w)) in
  let w' := snd (App.handleFile env workerRef file w) in
  fst (App.handleFile env workerRef file w) = inr tt /\
  ((exists msg,
      state w' = setError (Some msg) (setIsParsing false st0) /\
      bitmaps w' = bitmaps w /\ to_worker w' = to_worker w /\
      closed_bitmaps (trace w') = closed_bitmaps (trace w)) \/
   (workerRef = true /\ App.has_extension (file_name file) = true /\
    state w' = st0 /\ bitmaps w' = bitmaps w /\
    to_worker w' = to_worker w ++ [ParseRequest (file_name file) (file_bytes file)] /\
    closed_bitmaps (trace w') = closed_bitmaps (trace w)) \/
   (workerRef = false /\ App.has_extension (file_name file) = true /\
    exists psd,
      App.readPsd env (file_bytes file)
        {| skipLayerImageData := true; skipThumbnail := true |} = inr psd /\
      state w' = setIsParsing false
                   (setParsed_value
                      (Some {| fileName := file_name file; width := psd_width psd;
                               height := psd_height psd;
                               bitmap := next_bitmap (bitmaps w);
                               usedWorker := false |}) st0) /\
      bitmaps w' = superseded (parsed (state w)) (snd (new_bitmap (bitmaps w))) /\
      to_worker w' = to_worker w /\
      closed_bitmaps (trace w')
        = closed_bitmaps (trace w) ++ held_list (parsed (state w)))).
Proof.
  intros st0 w'. subst st0 w'. run_async.
  destruct (App.has_extension (file_name file)); cbn.
  2: { split; [reflexivity |]. left. eexists. repeat split; reflexivity. }
  destruct workerRef.
  - destruct (App.arrayBuffer_error env); cbn; (split; [reflexivity |]).
    + left. eexists. repeat split; try reflexivity.
      rewrite closed_bitmaps_app. cbn. apply app_nil_r.
    + right. left. repeat split; try reflexivity.
      rewrite !closed_bitmaps_app. cbn. rewrite !app_nil_r. reflexivity.
  - destruct (App.import_error env); cbn.
    { split; [reflexivity |]. left. eexists. repeat split; try reflexivity.
      rewrite !closed_bitmaps_app. cbn. rewrite ?app_nil_r. reflexivity. }
    destruct (App.arrayBuffer_error env); cbn.
    { split; [reflexivity |]. left. eexists. repeat split; try reflexivity.
      rewrite !closed_bitmaps_app. cbn. rewrite ?app_nil_r. reflexivity. }
    destruct (App.readPsd env _ _) as [e | psd] eqn:Hread; cbn.
    { split; [reflexivity |]. left. eexists. repeat split; try reflexivity.
      rewrite !closed_bitmaps_app. cbn. rewrite ?app_nil_r. reflexivity. }
    destruct (psd_canvas psd); cbn.
    2: { split; [reflexivity |]. left. eexists. repeat split; try reflexivity.
         rewrite !closed_bitmaps_app. cbn. rewrite ?app_nil_r. reflexivity. }
    destruct (App.createImageBitmap_error env); cbn.
    { split; [reflexivity |]. left. eexists. repeat split; try reflexivity.
      rewrite !closed_bitmaps_app. cbn. rewrite ?app_nil_r. reflexivity. }
    split; [destruct (parsed (state w)); reflexivity |].
    right. right. split; [reflexivity |]. split; [reflexivity |].
    exists psd. split; [reflexivity |].
    destruct (parsed (state w)) as [prev |]; cbn; repeat split; try reflexivity;
      rewrite !closed_bitmaps_app; cbn; rewrite ?app_nil_r; reflexivity.
Qed.

(** X4: [handleFile] never throws: whatever the file, the browser and the
    decoder do, it returns; and when it leaves an error message, the
    displayed composite, the bitmaps and the worker's queue are as before,
    no bitmap was closed and [isParsing] is off. *)
Theorem handleFile_reports_errors (env : App.Env) (workerRef : bool) (file : File)
    (w : World) :
  fst (App.handleFile env workerRef file w) = inr tt /\
  forall msg,
    error (state (snd (App.handleFile env workerRef file w))) = Some msg ->
    parsed (state (snd (App.handleFile env workerRef file w))) = parsed (state w) /\
    isParsing (state (snd (App.handleFile env workerRef file w))) = false /\
    bitmaps (snd (App.handleFile env workerRef file w)) = bitmaps w /\
    to_worker (snd (App.handleFile env workerRef file w)) = to_worker w /\
    closed_bitmaps (trace (snd (App.handleFile env workerRef file w)))
      = closed_bitmaps (trace w).
Proof.
  destruct (handleFile_cases env workerRef file w) as [Hret Hcases].
  split; [exact Hret |]. intros msg Herr.
  destruct Hcases as [(m & Hst & Hb & Hq & Hc)
                     | [(_ & _ & Hst & _) | (_ & _ & psd & _ & Hst & _)]].
  - rewrite Hst, Hb, Hq, Hc. repeat split; reflexivity.
  - rewrite Hst in Herr. discriminate Herr.
  - rewrite Hst in Herr. discriminate Herr.
Qed.

Lemma handleFile_reports_errors_witness :
  let w' := snd (App.handleFile (sample_app_env flat_psd) false sample_file
                   (world (initial false))) in
  error (state w') = Some "No composite image found in this PSD." /\
  parsed (state w') = None /\ isParsing (state w') = false /\
  bitmaps w' = no_bitmaps /\ to_worker w' = [] /\ closed_bitmaps (trace w') = [].
Proof.
  split; [reflexivity |].
  apply (proj2 (handleFile_reports_errors (sample_app_env flat_psd) false sample_file
                  (world (initial false)))
           "No composite image found in this PSD.").
  reflexivity.
Defined.

Lemma snoc_not_self {A} (l : list A) (x : A) : l ++ [x] <> l.
Proof.
  intros H. apply (f_equal length) in H. rewrite length_app in H. cbn in H. lia.
Qed.

(** X5: after [handleFile] the spinner ([isParsing]) is on exactly when a
    request for the file was posted to the worker; in every other case the
    worker's queue is as before.  With no worker it is always off. *)
Theorem handleFile_parsing_iff_posted (env : App.Env) (workerRef : bool) (file : File)
    (w : World) :
  (isParsing (state (snd (App.handleFile env workerRef file w))) = true <->
   to_worker (snd (App.handleFile env workerRef file w))
     = to_worker w ++ [ParseRequest (file_name file) (file_bytes file)]) /\
  (isParsing (state (snd (App.handleFile env workerRef file w))) = false <->
   to_worker (snd (App.handleFile env workerRef file w)) = to_worker w) /\
  (workerRef = false ->
   isParsing (state (snd (App.handleFile env workerRef file w))) = false).
Proof.
  destruct (handleFile_cases env workerRef file w) as [_ Hcases].
  destruct Hcases as [(m & Hst & _ & Hq & _)
                     | [(Hw & _ & Hst & _ & Hq & _) | (Hw & _ & psd & _ & Hst & _ & Hq & _)]];
    rewrite Hst, Hq; cbn.
  - split; [| split]; [split; intros H | split; intros H | intros _].
    + discriminate H.
    + symmetry in H. exfalso. exact (snoc_not_self _ _ H).
    + reflexivity.
    + reflexivity.
    + reflexivity.
  - split; [| split]; [split; intros H | split; intros H | intros Hn].
    + reflexivity.
    + reflexivity.
    + discriminate H.
    + exfalso. exact (snoc_not_self _ _ H).
    + congruence.
  - split; [| split]; [split; intros H | split; intros H | intros _].
    + discriminate H.
    + symmetry in H. exfalso. exact (snoc_not_self _ _ H).
    + reflexivity.
    + reflexivity.
    + reflexivity.
Qed.

Lemma handleFile_parsing_iff_posted_witness :
  isParsing (state (snd (App.handleFile (sample_app_env sample_psd) true sample_file
                           (world (initial true))))) = true /\
  isParsing (state (snd (App.handleFile (sample_app_env sample_psd) false sample_file
                           (world (initial false))))) = false.
Proof.
  split.
  - apply (proj1 (handleFile_parsing_iff_posted (sample_app_env sample_psd) true
                    sample_file (world (initial true)))).
    reflexivity.
  - apply (proj2 (proj2 (handleFile_parsing_iff_posted (sample_app_env sample_psd) false
                           sample_file (world (initial false))))).
    reflexivity.
Defined.

(** ** The outcomes of the worker and of its replies *)

Lemma Worker_onmessage_cases (env : Worker.Env) (data : WorkerData) (h : Bitmaps) :
  closed_bitmaps (snd (Worker.onmessage env data h)) = [] /\
  match data with
  | OtherData =>
    fst (fst (Worker.onmessage env data h)) = [] /\
    snd (fst (Worker.onmessage env data h)) = h
  | ParseRequest name buffer =>
    (exists m, fst (fst (Worker.onmessage env data h)) = [MsgError m] /\
               snd (fst (Worker.onmessage env data h)) = h) \/
    (exists wd ht,
       fst (fst (Worker.onmessage env data h)) = [MsgParsed name wd ht (next_bitmap h)] /\
       snd (fst (Worker.onmessage env data h)) = snd (new_bitmap h))
  end.
Proof.
  unfold Worker.onmessage. destruct data as [name buffer |]; [| repeat split].
  destruct (Worker.OffscreenCanvas_defined env); cbn [negb];
    [| split; [reflexivity | left; eexists; split; reflexivity]].
  cbv zeta.
  destruct (Worker.readPsd env _ _) as [e | psd];
    [split; [reflexivity | left; eexists; split; reflexivity] |].
  destruct (psd_canvas psd) as [canvas |];
    [| split; [reflexivity | left; eexists; split; reflexivity]].
  destruct (has_transferToImageBitmap canvas); cbn [negb].
  - split; [reflexivity |]. right. eexists _, _. split; reflexivity.
  - split; [reflexivity | left; eexists; split; reflexivity].
Qed.

Lemma worker_onmessage_cases (msg : WorkerResponse) (w : World) :
  to_worker (snd (App.worker_onmessage msg w)) = to_worker w /\
  match msg with
  | MsgError m =>
    state (snd (App.worker_onmessage msg w))
      = setError (Some (if String.eqb m "" then "Failed to parse PSD." else m))
          (setIsParsing false (state w)) /\
    bitmaps (snd (App.worker_onmessage msg w)) = bitmaps w /\
    closed_bitmaps (trace (snd (App.worker_onmessage msg w))) = closed_bitmaps (trace w)
  | MsgParsed name wd ht b =>
    state (snd (App.worker_onmessage msg w))
      = setParsed_value
          (Some {| fileName := name; width := wd; height := ht; bitmap := b;
                   usedWorker := true |})
          (setError None (setIsParsing false (state w))) /\
    bitmaps (snd (App.worker_onmessage msg w)) = superseded (parsed (state w)) (bitmaps w) /\
    closed_bitmaps (trace (snd (App.worker_onmessage msg w)))
      = closed_bitmaps (trace w) ++ held_list (parsed (state w))
  end.
Proof.
  destruct msg as [name wd ht b | m]; run_async; cbn.
  - destruct (parsed (state w)); cbn; repeat split; try reflexivity.
    + rewrite closed_bitmaps_app. reflexivity.
    + symmetry. apply app_nil_r.
  - repeat split; reflexivity.
Qed.

Lemma onDownload_closes_nothing (env : ExportEnv) (st : AppState) :
  closed_bitmaps (snd (onDownload env st)) = [] /\
  isParsing (fst (onDownload env st)) = isParsing st.
Proof.
  unfold onDownload. destruct (parsed st); [| split; reflexivity].
  destruct (context2d_available env); cbn [negb]; [| split; reflexivity].
  destruct (toBlob_result env), (format st); split; reflexivity.
Qed.

(** ** What one event can do to the page *)

(** Every event is of one of eight kinds: it leaves composite, bitmaps and
    queues alone; posts a request; installs a composite decoded on the main
    thread; lets the worker drop a foreign message, answer with an error or
    answer with a bitmap; or delivers an error or a composite. *)
Lemma step_cases (s : System) (ev : Event) :
  workerRef (step s ev) = workerRef s /\
  ((* quiet *)
   (parsed (state (world (step s ev))) = parsed (state (world s)) /\
    (isParsing (state (world (step s ev))) = isParsing (state (world s)) \/
     isParsing (state (world (step s ev))) = false) /\
    bitmaps (world (step s ev)) = bitmaps (world s) /\
    to_worker (world (step s ev)) = to_worker (world s) /\
    to_main (step s ev) = to_main s /\
    closed_bitmaps (trace (world (step s ev))) = closed_bitmaps (trace (world s))) \/
   (* a request is posted *)
   (workerRef s = true /\
    (exists name buffer,
       App.has_extension name = true /\
       to_worker (world (step s ev)) = to_worker (world s) ++ [ParseRequest name buffer]) /\
    parsed (state (world (step s ev))) = parsed (state (world s)) /\
    isParsing (state (world (step s ev))) = true /\
    bitmaps (world (step s ev)) = bitmaps (world s) /\
    to_main (step s ev) = to_main s /\
    closed_bitmaps (trace (world (step s ev))) = closed_bitmaps (trace (world s))) \/
   (* a composite is decoded on the main thread *)
   (workerRef s = false /\
    (exists p, parsed (state (world (step s ev))) = Some p /\
               App.has_extension (fileName p) = true /\
               usedWorker p = false /\
               bitmap p = next_bitmap (bitmaps (world s))) /\
    isParsing (state (world (step s ev))) = false /\
    bitmaps (world (step s ev))
      = superseded (parsed (state (world s))) (snd (new_bitmap (bitmaps (world s)))) /\
    to_worker (world (step s ev)) = to_worker (world s) /\
    to_main (step s ev) = to_main s /\
    closed_bitmaps (trace (world (step s ev)))
      = closed_bitmaps (trace (world s)) ++ held_list (parsed (state (world s)))) \/
   (* the worker handles a message *)
   (exists data rest,
      to_worker (world s) = data :: rest /\
      to_worker (world (step s ev)) = rest /\
      state (world (step s ev)) = state (world s) /\
      closed_bitmaps (trace (world (step s ev))) = closed_bitmaps (trace (world s)) /\
      match data with
      | OtherData =>
        to_main (step s ev) = to_main s /\
        bitmaps (world (step s ev)) = bitmaps (world s)
      | ParseRequest name _ =>
        (exists m, to_main (step s ev) = to_main s ++ [MsgError m] /\
                   bitmaps (world (step s ev)) = bitmaps (world s)) \/
        (exists wd ht,
           to_main (step s ev)
             = to_main s ++ [MsgParsed name wd ht (next_bitmap (bitmaps (world s)))] /\
           bitmaps (world (step s ev)) = snd (new_bitmap (bitmaps (world s))))
      end) \/
   (* a reply is delivered *)
   (exists msg rest,
      to_main s = msg :: rest /\
      to_main (step s ev) = rest /\
      to_worker (world (step s ev)) = to_worker (world s) /\
      isParsing (state (world (step s ev))) = false /\
      match msg with
      | MsgError _ =>
        parsed (state (world (step s ev))) = parsed (state (world s)) /\
        bitmaps (world (step s ev)) = bitmaps (world s) /\
        closed_bitmaps (trace (world (step s ev))) = closed_bitmaps (trace (world s))
      | MsgParsed name wd ht b =>
        parsed (state (world (step s ev)))
          = Some {| fileName := name; width := wd; height := ht; bitmap := b;
                    usedWorker := true |} /\
        bitmaps (world (step s ev))
          = superseded (parsed (state (world s))) (bitmaps (world s)) /\
        closed_bitmaps (trace (world (step s ev)))
          = closed_bitmaps (trace (world s)) ++ held_list (parsed (state (world s)))
      end)).
Proof.
  destruct ev as [file env | env | | | env | f | q | q | c]; cbn [step].
  - (* handleFile *)
    split; [reflexivity |].
    destruct (handleFile_cases env (workerRef s) file (world s)) as [_ Hcases].
    cbv zeta in Hcases. cbn [world to_main with_world].
    destruct Hcases as [(m & Hst & Hb & Hq & Hc)
                       | [(Hw & Hext & Hst & Hb & Hq & Hc)
                         | (Hw & Hext & psd & _ & Hst & Hb & Hq & Hc)]].
    + left. rewrite Hst, Hb, Hq, Hc. cbn. repeat split; auto.
    + right. left. rewrite Hst, Hb, Hq, Hc. cbn. repeat split; eauto.
    + right. right. left. rewrite Hst, Hb, Hq, Hc. cbn.
      repeat split; eauto.
  - (* the worker *)
    destruct (to_worker (world s)) as [| data rest] eqn:Hq.
    + split; [reflexivity |]. left. rewrite Hq. repeat split; auto.
    + pose proof (Worker_onmessage_cases env data (bitmaps (world s))) as [Hclosed Hout].
      destruct (Worker.onmessage env data (bitmaps (world s))) as [[posted h] calls].
      cbn [fst snd] in Hclosed, Hout. cbn [world workerRef to_main to_worker state bitmaps trace].
      split; [reflexivity |]. right. right. right. left.
      exists data, rest. split; [reflexivity |]. split; [reflexivity |].
      split; [reflexivity |].
      split; [rewrite closed_bitmaps_app, Hclosed; apply app_nil_r |].
      destruct data as [name buffer |].
      * destruct Hout as [(m & -> & ->) | (wd & ht & -> & ->)]; [left | right]; eauto.
      * destruct Hout as [-> ->]. split; [apply app_nil_r | reflexivity].
  - (* a reply *)
    destruct (to_main s) as [| msg rest] eqn:Hq.
    + split; [reflexivity |]. left. rewrite Hq. repeat split; auto.
    + cbn [world workerRef to_main].
      pose proof (worker_onmessage_cases msg (world s)) as [Hw Hout].
      split; [reflexivity |]. right. right. right. right.
      exists msg, rest. split; [reflexivity |]. split; [reflexivity |].
      split; [exact Hw |].
      destruct msg as [name wd ht b | m]; destruct Hout as (Hst & Hb & Hc);
        rewrite Hst, Hb, Hc; cbn; repeat split; reflexivity.
  - (* worker.onerror *)
    split; [reflexivity |]. left. cbn. repeat split; auto.
  - (* onDownload *)
    pose proof (onDownload_parsed env (state (world s))) as Hp.
    pose proof (onDownload_closes_nothing env (state (world s))) as [Hc Hi].
    destruct (onDownload env (state (world s))) as [st tr].
    cbn [fst snd] in Hp, Hc, Hi. cbn [world workerRef to_main with_world state bitmaps to_worker trace].
    split; [reflexivity |]. left. rewrite Hp, Hi, closed_bitmaps_app, Hc, app_nil_r.
    repeat split; auto.
  - split; [reflexivity |]. left. cbn. repeat split; auto.
  - split; [reflexivity |]. left. cbn. repeat split; auto.
  - split; [reflexivity |]. left. cbn. repeat split; auto.
  - split; [reflexivity |]. left. cbn. repeat split; auto.
Qed.

(** ** Invariants of the page *)

Lemma names_valid_step (s : System) (ev : Event) :
  names_valid s -> names_valid (step s ev).
Proof.
  intros (Hp & Hw & Hm). unfold names_valid.
  destruct (step_cases s ev) as [_ Hcases].
  destruct Hcases as
    [(Ep & _ & _ & Ew & Em & _)
    | [(_ & (n & b & Hn & Ew) & Ep & _ & _ & Em & _)
      | [(_ & (p' & Ep & Hn & _) & _ & _ & Ew & Em & _)
        | [(data & rest & Hq & Ew & Est & _ & Hd)
          | (msg & rest & Hq & Em & Ew & _ & Hd)]]]].
  - rewrite Ep, Ew, Em. auto.
  - rewrite Ep, Ew, Em. split; [exact Hp |]. split; [| exact Hm].
    apply Forall_app. split; [exact Hw |]. apply Forall_singleton. exists n. auto.
  - rewrite Ep, Ew, Em. split; [| auto]. intros p [= <-]. exact Hn.
  - rewrite Ew, Est. rewrite Hq in Hw. apply Forall_cons in Hw as [Hdata Hrest].
    split; [exact Hp |]. split; [exact Hrest |].
    destruct data as [name buffer |].
    + destruct Hd as [(m & -> & _) | (wd & ht & -> & _)];
        apply Forall_app; (split; [exact Hm |]); apply Forall_singleton.
      * intros n [=].
      * intros n [= <-]. destruct Hdata as (n' & [= <-] & Hn). exact Hn.
    + destruct Hd as [-> _]. exact Hm.
  - rewrite Ew, Em. rewrite Hq in Hm. apply Forall_cons in Hm as [Hmsg Hrest].
    split; [| auto].
    destruct msg as [name wd ht b | m].
    + destruct Hd as (-> & _). intros p [= <-]. apply Hmsg. reflexivity.
    + destruct Hd as (-> & _). exact Hp.
Qed.

Lemma run_names_valid (canUseWorker : bool) (evs : list Event) :
  names_valid (run canUseWorker evs).
Proof.
  induction evs as [| ev evs IH] using rev_ind.
  - repeat split; [intros p [=] | apply Forall_nil_2 | apply Forall_nil_2].
  - rewrite run_snoc. apply names_valid_step, IH.
Qed.

(** X6: the composite on display always carries a file name that passed
    the test of [handleFile], on either path; so the regular expression of
    the export always finds the extension: the base name of a download is
    the file name without its last four characters, which read [.psd]. *)
Theorem export_base_drops_extension (canUseWorker : bool) (evs : list Event)
    (p : ParsedComposite) :
  parsed (state (world (run canUseWorker evs))) = Some p ->
  App.has_extension (fileName p) = true /\
  exists e, psd_suffix e /\
            fileName p = JS.replace_suffix_i ".psd" (fileName p) +:+ e /\
            String.length (JS.replace_suffix_i ".psd" (fileName p))
              = (String.length (fileName p) - 4)%nat.
Proof.
  intros Hp. destruct (run_names_valid canUseWorker evs) as (Hvalid & _).
  specialize (Hvalid p Hp). split; [exact Hvalid |].
  apply has_extension_iff in Hvalid as (b & e & Hname & He). exists e.
  assert (Hbase : JS.replace_suffix_i ".psd" (fileName p) = b).
  { rewrite Hname. apply replace_suffix_matching, match_to_end_psd, toLowerCase_psd, He. }
  rewrite Hbase. split; [exact He |]. split; [exact Hname |].
  rewrite Hname, length_append.
  destruct He as (c1 & c2 & c3 & -> & _). cbn. lia.
Qed.

Lemma export_base_drops_extension_witness :
  exists e, psd_suffix e /\
            "Photo.PSD" = JS.replace_suffix_i ".psd" "Photo.PSD" +:+ e /\
            String.length (JS.replace_suffix_i ".psd" "Photo.PSD") = (9 - 4)%nat.
Proof.
  apply (export_base_drops_extension false
           [FileChosen sample_file (sample_app_env sample_psd)]
           {| fileName := "Photo.PSD"; width := 100; height := 100; bitmap := 0%nat;
              usedWorker := false |}).
  vm_compute. reflexivity.
Defined.

Lemma provenance_step (c : bool) (s : System) (ev : Event) :
  provenance c s -> provenance c (step s ev).
Proof.
  intros (Hw & Hp & Hsync). unfold provenance.
  destruct (step_cases s ev) as [Ew' Hcases]. rewrite Ew', Hw.
  split; [reflexivity |].
  destruct Hcases as
    [(Ep & Ei & _ & Ew & Em & _)
    | [(Hwr & _ & Ep & _ & _ & Em & _)
      | [(Hwr & (p' & Ep & _ & Hu & _) & Ei & _ & Ew & Em & _)
        | [(data & rest & Hq & Ew & Est & _ & Hd)
          | (msg & rest & Hq & Em & Ew & Ei & Hd)]]]].
  - rewrite Ep, Ew, Em. split; [exact Hp |]. intros Hc.
    destruct (Hsync Hc) as (? & ? & Hi). repeat split; try assumption.
    destruct Ei as [Ei | Ei]; congruence.
  - split; [rewrite Ep; exact Hp |]. intros Hc. congruence.
  - rewrite Ep, Ew, Em, Ei. split; [intros p [= <-]; congruence |].
    intros Hc. destruct (Hsync Hc) as (? & ? & _). auto.
  - split; [rewrite Est; exact Hp |]. intros Hc.
    destruct (Hsync Hc) as (Hnil & _). rewrite Hq in Hnil. discriminate Hnil.
  - split.
    + destruct msg as [name wd ht b | m]; destruct Hd as (-> & _).
      * intros p [= <-]. cbn.
        destruct c; [reflexivity |].
        destruct (Hsync eq_refl) as (_ & Hnil & _). rewrite Hq in Hnil. discriminate Hnil.
      * exact Hp.
    + intros Hc. destruct (Hsync Hc) as (_ & Hnil & _).
      rewrite Hq in Hnil. discriminate Hnil.
Qed.

Lemma run_provenance (canUseWorker : bool) (evs : list Event) :
  provenance canUseWorker (run canUseWorker evs).
Proof.
  induction evs as [| ev evs IH] using rev_ind.
  - split; [reflexivity |]. split; [intros p [=] | auto].
  - rewrite run_snoc. apply provenance_step, IH.
Qed.

(** X7: the provenance flag of the displayed composite tells where it was
    decoded: [usedWorker] is true exactly on a page that has a worker. *)
Theorem usedWorker_is_canUseWorker (canUseWorker : bool) (evs : list Event)
    (p : ParsedComposite) :
  parsed (state (world (run canUseWorker evs))) = Some p ->
  usedWorker p = canUseWorker.
Proof. intros Hp. exact (proj1 (proj2 (run_provenance canUseWorker evs)) p Hp). Qed.

Lemma usedWorker_is_canUseWorker_witness :
  usedWorker {| fileName := "Photo.PSD"; width := 100; height := 100; bitmap := 0%nat;
                usedWorker := true |} = true.
Proof.
  apply (usedWorker_is_canUseWorker true
           [FileChosen sample_file (sample_app_env sample_psd);
            WorkerRuns (sample_worker_env sample_psd); MessageDelivered]).
  vm_compute. reflexivity.
Defined.

Lemma ledger_step (s : System) (ev : Event) : ledger s -> ledger (step s ev).
Proof.
  unfold ledger, holders. intros (Hnd & Hall).
  assert (Hfresh : next_bitmap (bitmaps (world s))
                   ∉ closed_bitmaps (trace (world s)) ++
                     held_list (parsed (state (world s))) ++ message_bitmaps (to_main s)).
  { intros Hin. apply Hall in Hin. lia. }
  assert (Hnext : forall prev h, next_bitmap (superseded prev h) = next_bitmap h)
    by (intros [prev |] h; reflexivity).
  destruct (step_cases s ev) as [_ Hcases].
  destruct Hcases as
    [(Ep & _ & Eb & _ & Em & Ec)
    | [(_ & _ & Ep & _ & Eb & Em & Ec)
      | [(_ & (p' & Ep & _ & _ & Ebmp) & _ & Eb & _ & Em & Ec)
        | [(data & rest & _ & _ & Est & Ec & Hd)
          | (msg & rest & Hq & Em & _ & _ & Hd)]]]].
  - rewrite Ep, Eb, Em, Ec. auto.
  - rewrite Ep, Eb, Em, Ec. auto.
  - rewrite Ep, Eb, Em, Ec, Hnext. cbn [held_list new_bitmap snd next_bitmap].
    rewrite Ebmp. split.
    + rewrite <- app_assoc.
      apply NoDup_app in Hnd as (Hc & Hdisj & Hh).
      apply NoDup_app in Hh as (Hh & Hdisj' & Hm).
      apply NoDup_app. split; [exact Hc |]. split.
      * intros x Hx Hin. apply (Hdisj x Hx). set_solver.
      * apply NoDup_app. split; [exact Hh |]. split.
        -- intros x Hx Hin. apply elem_of_cons in Hin as [-> | Hin].
           ++ apply Hfresh. set_solver.
           ++ exact (Hdisj' x Hx Hin).
        -- apply NoDup_cons. split; [| exact Hm].
           intros Hin. apply Hfresh. set_solver.
    + intros b. specialize (Hall b). split.
      * intros Hlt.
        destruct (decide (b = next_bitmap (bitmaps (world s)))) as [-> | Hne];
          [set_solver |].
        assert (Hb : (b < next_bitmap (bitmaps (world s)))%nat) by lia.
        apply Hall in Hb. set_solver.
      * intros Hin.
        assert (Hb : b = next_bitmap (bitmaps (world s)) \/
                     b ∈ closed_bitmaps (trace (world s)) ++
                         held_list (parsed (state (world s))) ++
                         message_bitmaps (to_main s)) by set_solver.
        destruct Hb as [-> | Hb]; [lia |]. apply Hall in Hb. lia.
  - rewrite Est, Ec. destruct data as [name buffer |].
    + destruct Hd as [(m & -> & ->) | (wd & ht & -> & ->)];
        rewrite message_bitmaps_app; cbn [message_bitmaps omap].
      * rewrite app_nil_r. auto.
      * change (omap _ [MsgParsed name wd ht (next_bitmap (bitmaps (world s)))])
          with [next_bitmap (bitmaps (world s))].
        cbn [new_bitmap snd next_bitmap]. split.
        -- rewrite !app_assoc. apply NoDup_app. rewrite <- app_assoc.
           split; [exact Hnd |]. split; [| apply NoDup_singleton].
           intros x Hx Hin. apply list_elem_of_singleton in Hin. subst x.
           exact (Hfresh Hx).
        -- intros b. specialize (Hall b). split.
           ++ intros Hlt.
              destruct (decide (b = next_bitmap (bitmaps (world s)))) as [-> | Hne];
                [set_solver |].
              assert (Hb : (b < next_bitmap (bitmaps (world s)))%nat) by lia.
              apply Hall in Hb. set_solver.
           ++ intros Hin.
              assert (Hb : b = next_bitmap (bitmaps (world s)) \/
                           b ∈ closed_bitmaps (trace (world s)) ++
                               held_list (parsed (state (world s))) ++
                               message_bitmaps (to_main s)) by set_solver.
              destruct Hb as [-> | Hb]; [lia |]. apply Hall in Hb. lia.
    + destruct Hd as [-> ->]. auto.
  - rewrite Em. rewrite Hq in Hnd, Hall.
    destruct msg as [name wd ht b | m]; destruct Hd as (-> & -> & ->).
    + rewrite Hnext. cbn [held_list bitmap]. cbn [message_bitmaps omap] in Hnd, Hall.
      change (omap _ rest) with (message_bitmaps rest) in Hnd, Hall.
      rewrite <- app_assoc. cbn [app]. auto.
    + auto.
Qed.

Lemma run_ledger (canUseWorker : bool) (evs : list Event) :
  ledger (run canUseWorker evs).
Proof.
  induction evs as [| ev evs IH] using rev_ind.
  - split; [apply NoDup_nil_2 |]. intros b. cbn. split; [lia | intros H; inversion H].
  - rewrite run_snoc. apply ledger_step, IH.
Qed.

(** X10: no bitmap is closed twice, a closed bitmap is never open again, and
    every bitmap ever created is accounted for: the number of closed bitmaps
    plus the number of open ones is the number created. *)
Theorem bitmap_ledger (canUseWorker : bool) (evs : list Event) :
  NoDup (closed_bitmaps (trace (world (run canUseWorker evs)))) /\
  (forall b, b ∈ closed_bitmaps (trace (world (run canUseWorker evs))) ->
             b ∉ open_bitmaps (bitmaps (world (run canUseWorker evs)))) /\
  (length (closed_bitmaps (trace (world (run canUseWorker evs))))
   + size (open_bitmaps (bitmaps (world (run canUseWorker evs))))
   = next_bitmap (bitmaps (world (run canUseWorker evs))))%nat.
Proof.
  destruct (run_ledger canUseWorker evs) as (Hnd & Hall).
  destruct (run_accounted canUseWorker evs) as (Hh & _ & Hopen).
  set (s := run canUseWorker evs) in *.
  pose proof Hnd as Hnd'. apply NoDup_app in Hnd' as (Hc & Hdisj & _).
  split; [exact Hc |]. split.
  - intros b Hb. rewrite Hopen, elem_of_list_to_set. exact (Hdisj b Hb).
  - rewrite Hopen, size_list_to_set by exact Hh. rewrite <- length_app.
    assert (Hperm : closed_bitmaps (trace (world s)) ++ holders s
                    ≡ₚ seq 0 (next_bitmap (bitmaps (world s)))).
    { apply NoDup_Permutation; [exact Hnd | apply NoDup_seq |].
      intros b. rewrite <- Hall, elem_of_seq. lia. }
    rewrite Hperm. apply length_seq.
Qed.

Lemma drawn_by_export (env : ExportEnv) (st : AppState) (b : ImageBitmap) :
  b ∈ drawn_bitmaps (snd (onDownload env st)) ->
  exists p, parsed st = Some p /\ b = bitmap p.
Proof.
  unfold onDownload. destruct (parsed st) as [p |]; [| intros H; inversion H].
  intros Hb. exists p. split; [reflexivity |].
  destruct (context2d_available env); cbn [negb] in Hb; [| inversion Hb].
  destruct (toBlob_result env), (format st); cbn in Hb;
    apply list_elem_of_singleton in Hb; exact Hb.
Qed.

Lemma drawn_by_preview (env : PreviewEnv) (canvas : option Surface) (st : AppState)
    (b : ImageBitmap) :
  b ∈ drawn_bitmaps (preview_effect env canvas st) ->
  exists p, parsed st = Some p /\ b = bitmap p.
Proof.
  unfold preview_effect. destruct canvas as [cv |]; [| intros H; inversion H].
  destruct (parsed st) as [p |].
  - intros Hb. exists p. split; [reflexivity |].
    destruct (preview_context2d env); cbn in Hb; [| inversion Hb].
    apply list_elem_of_singleton in Hb. exact Hb.
  - destruct (preview_context2d env); intros H; inversion H.
Qed.

(** X11: no bitmap is used after [close]: in every state the page can
    reach, a bitmap that the export or the preview effect draws is open and
    was never closed. *)
Theorem no_draw_after_close (canUseWorker : bool) (evs : list Event) (env : ExportEnv)
    (penv : PreviewEnv) (canvas : option Surface) (b : ImageBitmap) :
  b ∈ drawn_bitmaps (snd (onDownload env (state (world (run canUseWorker evs))))) \/
  b ∈ drawn_bitmaps (preview_effect penv canvas (state (world (run canUseWorker evs)))) ->
  b ∈ open_bitmaps (bitmaps (world (run canUseWorker evs))) /\
  b ∉ closed_bitmaps (trace (world (run canUseWorker evs))).
Proof.
  intros Hdrawn.
  assert (Hp : exists p, parsed (state (world (run canUseWorker evs))) = Some p /\
                         b = bitmap p).
  { destruct Hdrawn as [H | H];
      [exact (drawn_by_export _ _ _ H) | exact (drawn_by_preview _ _ _ _ H)]. }
  destruct Hp as (p & Hp & ->).
  destruct (run_ledger canUseWorker evs) as (Hnd & _).
  destruct (run_accounted canUseWorker evs) as (_ & _ & Hopen).
  assert (Hheld : bitmap p ∈ holders (run canUseWorker evs)).
  { unfold holders. rewrite Hp. cbn. left. }
  split.
  - rewrite Hopen, elem_of_list_to_set. exact Hheld.
  - apply NoDup_app in Hnd as (_ & Hdisj & _). intros Hc. exact (Hdisj _ Hc Hheld).
Qed.

Lemma no_draw_after_close_witness :
  let evs := [FileChosen sample_file (sample_app_env sample_psd);
              FileChosen sample_file (sample_app_env sample_psd)] in
  1%nat ∈ open_bitmaps (bitmaps (world (run false evs))) /\
  1%nat ∉ closed_bitmaps (trace (world (run false evs))).
Proof.
  intros evs.
  apply (no_draw_after_close false evs ok_env
           {| preview_context2d := true; bitmap_size := fun _ => (100, 100) |} None).
  left. vm_compute. left.
Defined.

(** ** The preview *)

(** X12: when a composite is on display and the preview canvas has a 2D
    context, the preview effect gives the canvas the native width and height
    of the composite and draws the bitmap unscaled at the origin on a
    cleared canvas; whatever the canvas showed before is gone.  With a bitmap
    of the composite's size every pixel shows the bitmap. *)
Theorem preview_shows_composite (env : PreviewEnv) (cv : Surface) (st : AppState)
    (p : ParsedComposite) :
  parsed st = Some p -> preview_context2d env = true ->
  let shown := apply_calls (preview_effect env (Some cv) st) cv in
  surface_width shown = width p /\
  surface_height shown = height p /\
  (forall i j, on_canvas shown i j ->
     pixel shown i j =
       if in_rect 0 0 (fst (bitmap_size env (bitmap p))) (snd (bitmap_size env (bitmap p))) i j
       then Over (bitmap p) (imageSmoothingEnabled cv) (Cleared true)
       else Cleared true) /\
  (bitmap_size env (bitmap p) = (width p, height p) ->
   forall i j, on_canvas shown i j ->
     pixel shown i j = Over (bitmap p) (imageSmoothingEnabled cv) (Cleared true)).
Proof.
  intros Hp Hc shown. subst shown. unfold preview_effect. rewrite Hp, Hc.
  cbn. split; [reflexivity |]. split; [reflexivity |]. split.
  - intros i j [Hi Hj]. cbn in Hi, Hj.
    rewrite (in_rect_origin (width p) (height p)) by assumption. reflexivity.
  - intros -> i j [Hi Hj]. cbn in Hi, Hj. cbn.
    rewrite !in_rect_origin by assumption. reflexivity.
Qed.

Lemma preview_shows_composite_witness :
  let env := {| preview_context2d := true; bitmap_size := fun _ => (100, 100) |} in
  let shown := apply_calls (preview_effect env (Some new_surface) sample_state)
                 new_surface in
  surface_width shown = 100 /\ surface_height shown = 100 /\
  pixel shown 99 99 = Over 0%nat true (Cleared true).
Proof.
  intros env shown.
  destruct (preview_shows_composite env new_surface sample_state sample_composite
              eq_refl eq_refl) as (Hw & Hh & _ & Hall).
  split; [exact Hw |]. split; [exact Hh |].
  apply (Hall eq_refl 99 99). unfold on_canvas. cbn. lia.
Defined.


(** ** The two paths, end to end *)

(** X13: a file decoded through the worker (request, worker, reply) and the
    same file decoded on the main thread give the same composite: same file
    name, the decoded width and height, the same new bitmap, the same bitmap
    store; only [usedWorker] differs.  Both end with the spinner off and no
    error message. *)
Theorem paths_install_same_composite (w : World) (aenv : App.Env) (wenv : Worker.Env)
    (file : File) (psdW psdM : Psd) (cw cm : CanvasObject) :
  to_worker w = [] ->
  App.has_extension (file_name file) = true ->
  App.arrayBuffer_error aenv = None -> App.import_error aenv = None ->
  App.createImageBitmap_error aenv = None ->
  Worker.OffscreenCanvas_defined wenv = true ->
  Worker.readPsd wenv (file_bytes file)
    {| skipLayerImageData := true; skipThumbnail := true |} = inr psdW ->
  App.readPsd aenv (file_bytes file)
    {| skipLayerImageData := true; skipThumbnail := true |} = inr psdM ->
  psd_canvas psdW = Some cw -> has_transferToImageBitmap cw = true ->
  psd_canvas psdM = Some cm ->
  psd_width psdW = psd_width psdM -> psd_height psdW = psd_height psdM ->
  let via_worker :=
    step (step (step (page w true []) (FileChosen file aenv)) (WorkerRuns wenv))
         MessageDelivered in
  let on_main := step (page w false []) (FileChosen file aenv) in
  exists pw pm,
    parsed (state (world via_worker)) = Some pw /\
    parsed (state (world on_main)) = Some pm /\
    fileName pw = file_name file /\ fileName pm = file_name file /\
    width pw = width pm /\ height pw = height pm /\ bitmap pw = bitmap pm /\
    usedWorker pw = true /\ usedWorker pm = false /\
    bitmaps (world via_worker) = bitmaps (world on_main) /\
    closed_bitmaps (trace (world via_worker)) = closed_bitmaps (trace (world on_main)) /\
    error (state (world via_worker)) = None /\ error (state (world on_main)) = None /\
    isParsing (state (world via_worker)) = false /\
    isParsing (state (world on_main)) = false /\
    to_worker (world via_worker) = [] /\ to_main via_worker = [].
Proof.
  intros Hq Hext Hbuf Himp Hbmp Hoff HreadW HreadM HcW Htr HcM Hwd Hht via_worker on_main.
  subst via_worker on_main. unfold page. cbn [step workerRef world to_main with_world].
  run_async. rewrite Hext, Hbuf, Himp. cbn. rewrite HreadM. cbn. rewrite HcM. cbn.
  rewrite Hbmp, Hq. cbn. unfold Worker.onmessage. rewrite Hoff. cbn.
  rewrite HreadW, HcW, Htr. cbn. rewrite Hwd, Hht.
  destruct (parsed (state w)) as [prev |]; cbn;
    eexists _, _; repeat split; try reflexivity;
    rewrite !closed_bitmaps_app; cbn; rewrite ?app_nil_r; reflexivity.
Qed.

Lemma paths_install_same_composite_witness :
  let aenv := sample_app_env sample_psd in
  let wenv := sample_worker_env sample_psd in
  let via_worker :=
    step (step (step (page (world (initial true)) true []) (FileChosen sample_file aenv))
               (WorkerRuns wenv)) MessageDelivered in
  let on_main := step (page (world (initial true)) false []) (FileChosen sample_file aenv) in
  exists pw pm,
    parsed (state (world via_worker)) = Some pw /\
    parsed (state (world on_main)) = Some pm /\
    fileName pw = "Photo.PSD" /\ fileName pm = "Photo.PSD" /\
    width pw = width pm /\ height pw = height pm /\ bitmap pw = bitmap pm /\
    usedWorker pw = true /\ usedWorker pm = false /\
    bitmaps (world via_worker) = bitmaps (world on_main) /\
    closed_bitmaps (trace (world via_worker)) = closed_bitmaps (trace (world on_main)) /\
    error (state (world via_worker)) = None /\ error (state (world on_main)) = None /\
    isParsing (state (world via_worker)) = false /\
    isParsing (state (world on_main)) = false /\
    to_worker (world via_worker) = [] /\ to_main via_worker = [].
Proof.
  intros aenv wenv.
  apply (paths_install_same_composite (world (initial true)) aenv wenv sample_file
           sample_psd sample_psd {| has_transferToImageBitmap := true |}
           {| has_transferToImageBitmap := true |}); reflexivity.
Defined.

(** X14: a decoder failure in the worker reaches the user: after the
    worker has handled the request and its reply is delivered, the error
    text is the message of the thrown [Error], or "Failed to parse PSD." when
    the thrown value is no [Error] or its message is empty; it is never
    empty.  The spinner is off and the displayed composite and the bitmaps
    are as before. *)
Theorem worker_failure_is_shown (w : World) (wenv : Worker.Env) (name : string)
    (buffer : list Byte.byte) (rest : list WorkerData) (e : Thrown) :
  to_worker w = ParseRequest name buffer :: rest ->
  Worker.OffscreenCanvas_defined wenv = true ->
  Worker.readPsd wenv buffer {| skipLayerImageData := true; skipThumbnail := true |}
    = inl e ->
  let s' := step (step (page w true []) (WorkerRuns wenv)) MessageDelivered in
  exists text,
    error (state (world s')) = Some text /\
    text <> "" /\
    (catch_message e <> "" -> text = catch_message e) /\
    (catch_message e = "" -> text = "Failed to parse PSD.") /\
    isParsing (state (world s')) = false /\
    parsed (state (world s')) = parsed (state w) /\
    bitmaps (world s') = bitmaps w /\
    to_worker (world s') = rest /\ to_main s' = [].
Proof.
  intros Hq Hoff Hread s'. subst s'. unfold page. cbn [step workerRef world to_main].
  rewrite Hq. unfold Worker.onmessage. rewrite Hoff. cbn [negb]. cbv zeta.
  rewrite Hread. cbn [app]. run_async. cbn.
  destruct (String.eqb (catch_message e) "") eqn:E.
  - apply String.eqb_eq in E. eexists. repeat split; try reflexivity.
    + discriminate.
    + intros H. contradiction.
  - apply String.eqb_neq in E. eexists. repeat split; try reflexivity.
    + exact E.
    + intros H. contradiction.
Qed.

Lemma worker_failure_is_shown_witness :
  let wenv := {| Worker.OffscreenCanvas_defined := true;
                 Worker.readPsd := fun _ _ => inl OtherValue |} in
  let w := {| state := initial_state; bitmaps := no_bitmaps; trace := [];
              to_worker := [ParseRequest "Photo.PSD" []] |} in
  exists text,
    error (state (world (step (step (page w true []) (WorkerRuns wenv)) MessageDelivered)))
      = Some text /\ text <> "".
Proof.
  intros wenv w.
  destruct (worker_failure_is_shown w wenv "Photo.PSD" [] [] OtherValue
              eq_refl eq_refl eq_refl) as (text & Herr & Hne & _).
  exists text. split; assumption.
Defined.

(** X15: on the main thread the error text is what was thrown: the message
    of the [Error] the decoder threw (even an empty one, which the page does
    not render), "Failed to parse PSD." for any other thrown value, and the
    "No composite image" text for a PSD without canvas.  The displayed
    composite and the bitmaps are kept. *)
Theorem main_thread_failure_text (env : App.Env) (file : File) (w : World) :
  App.has_extension (file_name file) = true ->
  App.import_error env = None -> App.arrayBuffer_error env = None ->
  let w' := snd (App.handleFile env false file w) in
  (forall e,
     App.readPsd env (file_bytes file)
       {| skipLayerImageData := true; skipThumbnail := true |} = inl e ->
     error (state w') = Some (catch_message e)) /\
  (forall psd,
     App.readPsd env (file_bytes file)
       {| skipLayerImageData := true; skipThumbnail := true |} = inr psd ->
     psd_canvas psd = None ->
     error (state w') = Some "No composite image found in this PSD.") /\
  (forall text, error (state w') = Some text ->
     parsed (state w') = parsed (state w) /\ bitmaps w' = bitmaps w /\
     isParsing (state w') = false).
Proof.
  intros Hext Himp Hbuf w'. subst w'. split; [| split].
  - intros e Hread. run_async. rewrite Hext, Himp, Hbuf. cbn. rewrite Hread. reflexivity.
  - intros psd Hread Hnone. run_async. rewrite Hext, Himp, Hbuf. cbn.
    rewrite Hread. cbn. rewrite Hnone. reflexivity.
  - intros text Herr.
    destruct (handleFile_cases env false file w) as [_ Hcases]. cbv zeta in Hcases.
    destruct Hcases as [(m & Hst & Hb & _)
                       | [(Hw & _) | (_ & _ & psd & _ & Hst & _)]].
    + rewrite Hst, Hb. repeat split; reflexivity.
    + discriminate Hw.
    + rewrite Hst in Herr. discriminate Herr.
Qed.

Lemma main_thread_failure_text_witness :
  error (state (snd (App.handleFile (sample_app_env flat_psd) false sample_file
                       (world (initial false)))))
    = Some "No composite image found in this PSD.".
Proof.
  apply (proj1 (proj2 (main_thread_failure_text (sample_app_env flat_psd) sample_file
                         (world (initial false)) eq_refl eq_refl eq_refl)) flat_psd);
    reflexivity.
Defined.

(** X16: a composite, once displayed, is only ever replaced by another one:
    no event sets [parsed] back to null. *)
Theorem composite_never_cleared (canUseWorker : bool) (evs more : list Event) :
  parsed (state (world (run canUseWorker evs))) <> None ->
  parsed (state (world (run canUseWorker (evs ++ more)))) <> None.
Proof.
  intros Hsome. induction more as [| ev more IH] using rev_ind.
  - rewrite app_nil_r. exact Hsome.
  - rewrite app_assoc, run_snoc.
    destruct (step_cases (run canUseWorker (evs ++ more)) ev) as [_ Hcases].
    destruct Hcases as
      [(Ep & _)
      | [(_ & _ & Ep & _)
        | [(_ & (p' & Ep & _) & _)
          | [(data & rest & _ & _ & Est & _)
            | (msg & rest & _ & _ & _ & _ & Hd)]]]].
    + rewrite Ep. exact IH.
    + rewrite Ep. exact IH.
    + rewrite Ep. discriminate.
    + rewrite Est. exact IH.
    + destruct msg as [name wd ht b | m]; destruct Hd as (-> & _);
        [discriminate | exact IH].
Qed.

Lemma composite_never_cleared_witness :
  parsed (state (world (run false
    ([FileChosen sample_file (sample_app_env sample_psd)] ++
     [FileChosen text_file (sample_app_env sample_psd); WorkerFails;
      DownloadClicked no_context_env])))) <> None.
Proof.
  apply (composite_never_cleared false
           [FileChosen sample_file (sample_app_env sample_psd)]).
  vm_compute. discriminate.
Defined.

(** ** The output buffer of the smoke test's dev server *)

Lemma prefix_iff (t s : string) :
  String.prefix t s = true <-> exists b, s = t +:+ b.
Proof.
  revert s. induction t as [| c t IH]; intros s.
  - split; [intros _; exists s; reflexivity | intros _; destruct s; reflexivity].
  - destruct s as [| d s]; cbn [String.prefix].
    + split; [intros H; discriminate H | intros [b H]; discriminate H].
    + destruct (ascii_dec c d) as [-> | Hne].
      * rewrite IH. split; intros [b H]; exists b.
        -- rewrite append_cons, H. reflexivity.
        -- rewrite append_cons in H. injection H as H. exact H.
      * split; [intros H; discriminate H |].
        intros [b H]. rewrite append_cons in H. injection H as Hc _. congruence.
Qed.

Lemma includes_unfold (s t : string) :
  Smoke.includes s t =
  if String.prefix t s then true
  else match s with
       | EmptyString => false
       | String _ r => Smoke.includes r t
       end.
Proof. destruct s; reflexivity. Qed.

Lemma includes_iff (s t : string) : Smoke.includes s t = true <-> occurs_in t s.
Proof.
  unfold occurs_in. split.
  - induction s as [| c s IH]; rewrite includes_unfold;
      destruct (String.prefix t _) eqn:Hpre.
    + intros _. apply prefix_iff in Hpre as [b Hb]. exists EmptyString, b. exact Hb.
    + intros H. discriminate H.
    + intros _. apply prefix_iff in Hpre as [b Hb]. exists EmptyString, b. exact Hb.
    + intros H. destruct (IH H) as (a & b & ->). exists (String c a), b. reflexivity.
  - intros (a & b & ->). induction a as [| c a IH]; rewrite includes_unfold.
    + change (EmptyString +:+ t +:+ b) with (t +:+ b).
      rewrite (proj2 (prefix_iff t (t +:+ b))) by (exists b; reflexivity). reflexivity.
    + rewrite append_cons. destruct (String.prefix t _); [reflexivity | exact IH].
Qed.

Lemma after_chunks_snoc (chunks : list string) (s : string) :
  Smoke.after_chunks (chunks ++ [s]) = Smoke.onData s (Smoke.after_chunks chunks).
Proof. unfold Smoke.after_chunks. rewrite fold_left_app. reflexivity. Qed.

Lemma tail_drop {A} (k : nat) (l : list A) : tail (drop k l) = drop (S k) l.
Proof.
  revert l. induction k as [| k IH]; intros [| x l]; cbn; try reflexivity.
  apply IH.
Qed.

Lemma tail_snoc {A} (l : list A) (x : A) : l <> [] -> tail (l ++ [x]) = tail l ++ [x].
Proof. destruct l; [contradiction | reflexivity]. Qed.

(** X17: the buffer [out] of the dev server holds the last 200 chunks of
    output, oldest first (all of them while there are fewer); it never
    holds more than 200, and [getOutput] is their concatenation. *)
Theorem out_keeps_last_200 (chunks : list string) :
  Smoke.out (Smoke.after_chunks chunks) = drop (length chunks - 200) chunks /\
  (length (Smoke.out (Smoke.after_chunks chunks)) <= 200)%nat /\
  Smoke.getOutput (Smoke.after_chunks chunks)
    = fold_right String.append EmptyString (drop (length chunks - 200) chunks).
Proof.
  assert (Hout : Smoke.out (Smoke.after_chunks chunks) = drop (length chunks - 200) chunks).
  { induction chunks as [| s chunks IH] using rev_ind; [reflexivity |].
    rewrite after_chunks_snoc. unfold Smoke.onData. cbn [Smoke.out].
    rewrite IH, !length_app, length_drop. cbn [length].
    destruct (Nat.ltb_spec 200 (length chunks - (length chunks - 200) + 1)) as [Hlt | Hge].
    - assert (Hlen : (200 <= length chunks)%nat) by lia.
      rewrite tail_snoc.
      + rewrite tail_drop.
        replace (length chunks + 1 - 200)%nat with (S (length chunks - 200)) by lia.
        rewrite drop_app_le by lia. reflexivity.
      + intros Hnil. apply (f_equal length) in Hnil. rewrite length_drop in Hnil.
        cbn in Hnil. lia.
    - replace (length chunks + 1 - 200)%nat with 0%nat by lia.
      replace (length chunks - 200)%nat with 0%nat by lia. reflexivity. }
  split; [exact Hout |]. split.
  - rewrite Hout, length_drop. lia.
  - unfold Smoke.getOutput. rewrite Hout. reflexivity.
Qed.

(** X18: [ready] is set once and for all by the first chunk that contains
    "ready in" or "Local:": it is true exactly when some chunk of the
    output so far, retained in [out] or not, contains one of the two. *)
Theorem ready_iff_marker_seen (chunks : list string) :
  Smoke.ready (Smoke.after_chunks chunks) = true <->
  Exists (fun s => occurs_in "ready in" s \/ occurs_in "Local:" s) chunks.
Proof.
  induction chunks as [| s chunks IH] using rev_ind.
  - split; [intros H; discriminate H | intros H; inversion H].
  - rewrite after_chunks_snoc, Exists_app, Exists_cons, Exists_nil.
    unfold Smoke.onData. cbn [Smoke.ready].
    destruct (Smoke.includes s "ready in") eqn:E1.
    + cbn. apply includes_iff in E1. tauto.
    + destruct (Smoke.includes s "Local:") eqn:E2; cbn.
      * apply includes_iff in E2. tauto.
      * rewrite IH.
        assert (H1 : ~ occurs_in "ready in" s)
          by (intros H; apply includes_iff in H; congruence).
        assert (H2 : ~ occurs_in "Local:" s)
          by (intros H; apply includes_iff in H; congruence).
        tauto.
Qed.

Example dev_server_sample :
  Smoke.after_chunks ["VITE v5"; "  ready in 312 ms"; "  Local: http://127.0.0.1:5173/"]
  = {| Smoke.ready := true;
       Smoke.out := ["VITE v5"; "  ready in 312 ms"; "  Local: http://127.0.0.1:5173/"] |}.
Proof. vm_compute. reflexivity. Qed.
